(** * pkgmgr: command resolution, execution and update planning

    A shallow embedding of [main.go] of ngicks/pkgmgr.  The program reads a
    configuration directory, builds a list of named command sets and runs one
    of the four operations [ver], [checklatest], [install], [update] on every
    target through [commandExecutor.Exec].

    Child processes, the file system and the Go standard library are not part
    of the program: they enter the development as parameters
    (a world type with [os_Stat] and [cmd_Run], [filepath_Join],
    [strings_TrimSpace], [slices_SortFunc], ...), the fields of the class
    [Platform].  Everything the program
    itself does is written out: the order of the calls, the arguments and the
    environment handed to a child, the lines printed and the panics. *)

From Stdlib Require Import String Ascii List ZArith Sorted Permutation Lia.
From stdpp Require Import base option list sorting gmap strings pretty.

Local Open Scope string_scope.
Local Open Scope list_scope.

(** ** Data model *)

(** [type command string] with its four constants.  Every call of [Exec] and
    [Select] in the program passes one of the constants ([main] rejects any
    other operation name before it gets that far), so the type is embedded as
    an enumeration and the [default: panic] arm of [Select] has no
    counterpart. *)
Inductive command : Type :=
| commandVer
| commandChecklatest
| commandInstall
| commandUpdate.

Definition command_string (c : command) : string :=
  match c with
  | commandVer => "ver"
  | commandChecklatest => "checklatest"
  | commandInstall => "install"
  | commandUpdate => "update"
  end.

Definition cmds : list command :=
  [commandVer; commandChecklatest; commandInstall; commandUpdate].

#[global] Instance command_eq_dec : EqDecision command.
Proof. solve_decision. Defined.

(** A Go [[]string]: [None] is the nil slice, [Some l] a non-nil slice.  The
    difference is invisible to [len] but [reflect.Value.IsZero] sees it. *)
Definition slice : Type := option (list string).

Definition len (s : slice) : nat :=
  match s with
  | None => 0
  | Some l => length l
  end.

Definition elems (s : slice) : list string := default [] s.

Record commandSet : Type := {
  Ver : slice;
  CheckLatest : slice;
  Install : slice;
  Update : slice
}.

(** The field [Set] of the source is spelled [Set_]: [Set] is reserved. *)
Record namedCommandSet : Type := {
  Name : string;
  Set_ : commandSet
}.

Definition zeroCommandSet : commandSet :=
  {| Ver := None; CheckLatest := None; Install := None; Update := None |}.

(** [reflect.ValueOf(c).IsZero()] on a [commandSet]: all four slices nil. *)
Definition IsZero (c : commandSet) : bool :=
  match Ver c, CheckLatest c, Install c, Update c with
  | None, None, None, None => true
  | _, _, _, _ => false
  end.

Definition Select (c : commandSet) (kind : command) : slice :=
  match kind with
  | commandVer => Ver c
  | commandChecklatest => CheckLatest c
  | commandInstall => Install c
  | commandUpdate => Update c
  end.

Record commandExecutor : Type := {
  dir : string;
  commandSet_ : namedCommandSet
}.

Definition newCommandExecutor (d : string) (s : namedCommandSet) : commandExecutor :=
  {| dir := d; commandSet_ := s |}.

(** [cmp.Or] at two strings: the first one that is not empty. *)
Definition cmp_Or (a b : string) : string :=
  if decide (a = "") then b else a.

(** Reading a Go [map[string]string] at a key: the zero value when absent. *)
Definition index (m : gmap string string) (k : string) : string :=
  default "" (m !! k).

(** ** Placeholder substitution *)

Module Replacer.

(** [dictReplacer{"${VER}": ver, ...}]: a map from placeholder to value. *)
Definition dictReplacer : Type := gmap string string.

(** Modelled from the spec: part of [dictReplacer.Map], whose body is not in
    [main.go].  The first entry whose non-empty key starts the text [s]. *)
Fixpoint matchAt (entries : list (string * string)) (s : string)
  : option (string * string) :=
  match entries with
  | [] => None
  | (k, v) :: rest =>
      if decide (k = "") then matchAt rest s
      else if String.prefix k s then Some (k, v) else matchAt rest s
  end.

(** Modelled from the spec: part of [dictReplacer.Map], whose body is not in
    [main.go].  One left-to-right pass over a token: where a placeholder
    starts, its value is written and the placeholder skipped ([skip] counts
    the characters of it still to pass over); any other character is
    copied.  The text of a value is not looked at again. *)
Fixpoint replaceFrom (entries : list (string * string)) (skip : nat) (s : string)
  : string :=
  match s with
  | EmptyString => EmptyString
  | String c rest =>
      match skip with
      | S n => replaceFrom entries n rest
      | O =>
          match matchAt entries s with
          | Some (k, v) => v +:+ replaceFrom entries (String.length k - 1) rest
          | None => String c (replaceFrom entries 0 rest)
          end
      end
  end.

(** Modelled from the spec: part of [dictReplacer.Map], whose body is not in
    [main.go].  The substitution in one token. *)
Definition replaceToken (d : dictReplacer) (s : string) : string :=
  replaceFrom (map_to_list d) 0 s.

(** Modelled from the spec: the method [dictReplacer.Map] is used by [Exec]
    but its body is not in [main.go].  Section 4.1 gives its contract: a new
    sequence in the same order where every occurrence of each placeholder
    literal within each token is replaced by its value, by literal
    substitution, and tokens without placeholders pass through unchanged. *)
Definition Map (d : dictReplacer) (args : list string) : list string :=
  map (replaceToken d) args.

(** The dictionary [Exec] builds. *)
Definition execDict (ver goos goarch : string) : dictReplacer :=
  <["${VER}" := ver]> (<["${OS}" := goos]> (<["${ARCH}" := goarch]> ∅)).



End Replacer.

(** ** Strings and comparisons of the Go library used by [main] *)

(** [strings.HasSuffix] and [strings.TrimSuffix]. *)
Definition HasSuffix (s suffix : string) : bool :=
  let n := String.length s in
  let m := String.length suffix in
  (m <=? n)%nat && String.eqb (String.substring (n - m) m s) suffix.

Definition TrimSuffix (s suffix : string) : string :=
  if HasSuffix s suffix
  then String.substring 0 (String.length s - String.length suffix) s
  else s.

(** [cmp.Compare] on strings: byte-wise lexicographic, as -1, 0 or +1. *)
Definition cmp_Compare (a b : string) : Z :=
  match String.compare a b with
  | Lt => (-1)%Z
  | Eq => 0%Z
  | Gt => 1%Z
  end.

(** The comparison function handed to [slices.SortFunc]. *)
Definition compareSets (i j : namedCommandSet) : Z :=
  let c := cmp_Compare (Name i) (Name j) in
  if decide (c ≠ 0%Z) then c
  else if IsZero (Set_ i) then 1%Z
  else if IsZero (Set_ j) then (-1)%Z
  else 0%Z.

(** [slices.CompactFunc]: every run of neighbours that [eq] relates is
    replaced by its first element; each element is compared with the one
    just before it in the input. *)
Fixpoint compactAfter {A : Type} (eq : A → A → bool) (prev : A) (l : list A) : list A :=
  match l with
  | [] => []
  | x :: rest =>
      if eq x prev then compactAfter eq x rest else x :: compactAfter eq x rest
  end.

Definition CompactFunc {A : Type} (l : list A) (eq : A → A → bool) : list A :=
  match l with
  | [] => []
  | x :: rest => x :: compactAfter eq x rest
  end.

(** The function handed to [slices.CompactFunc] (line 343). *)
Definition sameName (i j : namedCommandSet) : bool :=
  bool_decide (Name i = Name j).

(** The name of [a] is strictly before the name of [b]. *)
Definition nameBefore (a b : namedCommandSet) : Prop :=
  String.compare (Name a) (Name b) = Lt.

(** Insertion sort as [slices.SortFunc] runs it on short slices: each element
    moves left while [cmp] puts it strictly before its left neighbour.  The
    sorted part is kept reversed, its last element first. *)
Fixpoint insertLeft {A : Type} (cmp : A → A → Z) (x : A) (revSorted : list A) : list A :=
  match revSorted with
  | [] => [x]
  | y :: rest =>
      if (cmp x y <? 0)%Z then y :: insertLeft cmp x rest else x :: y :: rest
  end.

Definition insertionSort {A : Type} (cmp : A → A → Z) (l : list A) : list A :=
  rev (fold_left (λ acc x, insertLeft cmp x acc) l []).

(** ** Errors, printed values and the events of a run *)

(** [ErrExternal] stands for an error made outside the program (by the
    operating system, [os/exec] or [encoding/json]); [Errorf] is
    [fmt.Errorf] with its format and its string arguments, [Wrapf] the same
    with an error wrapped by [%w] as last argument. *)
Inductive error : Type :=
| ErrExternal (msg : string)
| Errorf (format : string) (args : list string)
| Wrapf (format : string) (args : list string) (wrapped : error).

Inductive value : Type :=
| VStr (s : string)
| VErr (e : error)
| VMap (m : gmap string string).

(** What a run does, in order.  [EvExec] marks the entry into
    [commandExecutor.Exec] with the target name and the arguments of the
    call (a mark in the trace, not an effect of the program); [EvStat] is a
    call of [os.Stat]; [EvRun] is [cmd.Run] with the argument vector and the
    environment of the child and whether its output is mirrored to standard
    output; [EvPrintf] is [fmt.Printf]. *)
Inductive event : Type :=
| EvExec (name : string) (kind : command) (ver : string) (verbose : bool)
| EvStat (path : string)
| EvRun (argv env : list string) (verbose : bool)
| EvPrintf (format : string) (args : list value).

Inductive outcome (A : Type) : Type :=
| Ok (a : A)
| Panic (e : error).
Arguments Ok {A} a.
Arguments Panic {A} e.

Record FileInfo : Type := {
  fi_Name : string;
  fi_IsRegular : bool;
  fi_IsDir : bool
}.

(** Opening a file and decoding its JSON content. *)
Inductive readResult (A : Type) : Type :=
| ReadNotExist (e : error)
| ReadOpenError (e : error)
| ReadDecodeError (e : error)
| ReadOk (a : A).
Arguments ReadNotExist {A} e.
Arguments ReadOpenError {A} e.
Arguments ReadDecodeError {A} e.
Arguments ReadOk {A} a.

Record flags : Type := {
  flag_v : bool;
  flag_f : bool
}.

Record targetedExecutor : Type := {
  tgt : string;
  executor : commandExecutor
}.

Definition pinnedVersionsFileName : string := ".pin.json".

Definition suffixes : list string := [""; ".sh"; ".exe"; ".bat"; ".ps1"].

Definition is_update_of (name : string) (ev : event) : bool :=
  match ev with
  | EvExec n commandUpdate _ _ => bool_decide (n = name)
  | _ => false
  end.

Definition is_install_of (name : string) (ev : event) : bool :=
  match ev with
  | EvExec n commandInstall _ _ => bool_decide (n = name)
  | _ => false
  end.

Definition is_exec (ev : event) : bool :=
  match ev with
  | EvExec _ _ _ _ => true
  | _ => false
  end.

(** ** The program *)

(** What the program is given by its platform. *)
Class Platform : Type := {
  (** The state of everything outside the process: files, installed
      packages, the network the scripts talk to. *)
  World : Type;
  (** [runtime.GOOS] and [runtime.GOARCH]. *)
  GOOS : string;
  GOARCH : string;
  (** [filepath.Join] and [strings.TrimSpace]. *)
  filepath_Join : list string → string;
  strings_TrimSpace : string → string;
  (** [os.Stat]: the file's description, or [None] when it returns an error. *)
  os_Stat : World → string → option FileInfo;
  (** [os.Environ]. *)
  os_Environ : World → list string;
  (** [cmd.Run] of a command with the given argument vector and environment:
      what the child wrote to its standard output, the error of the run if
      any, and the world the child leaves behind. *)
  cmd_Run : World → list string → list string → string * option error * World;
  (** [os.Open] and [json.Decoder.Decode] of the pin file and of a command
      set file; [os.Open] and [Readdir] of the configuration directory. *)
  readPinFile : World → string → readResult (gmap string string);
  readSetFile : World → string → readResult commandSet;
  readDir : World → string → error + list FileInfo;
  (** [slices.SortFunc]. *)
  slices_SortFunc :
    list namedCommandSet → (namedCommandSet → namedCommandSet → Z) → list namedCommandSet
}.

Section Program.

Context `{!Platform}.

(** *** Computations: a world in, a result, a world and a trace out *)

Definition M (A : Type) : Type := World → outcome A * World * list event.

Definition ret {A : Type} (a : A) : M A := λ w, (Ok a, w, []).

Definition bind {A B : Type} (m : M A) (k : A → M B) : M B :=
  λ w,
    match m w with
    | (Ok a, w1, t1) =>
        match k a w1 with
        | (r, w2, t2) => (r, w2, t1 ++ t2)
        end
    | (Panic e, w1, t1) => (Panic e, w1, t1)
    end.

Definition panic {A : Type} (e : error) : M A := λ w, (Panic e, w, []).

Definition emit (ev : event) : M unit := λ w, (Ok tt, w, [ev]).

Definition Printf (format : string) (args : list value) : M unit :=
  emit (EvPrintf format args).

Definition Stat (path : string) : M (option FileInfo) :=
  λ w, (Ok (os_Stat w path), w, [EvStat path]).

Definition Run (argv env : list string) (verbose : bool) : M (string * option error) :=
  λ w,
    match cmd_Run w argv env with
    | (out, err, w') => (Ok (out, err), w', [EvRun argv env verbose])
    end.

Definition Environ : M (list string) := λ w, (Ok (os_Environ w), w, []).

(** [m] with the events [pre] before its own. *)
Definition withTrace {A : Type} (pre : list event) (m : M A) : M A :=
  λ w, match m w with (r, w', t) => (r, w', pre ++ t) end.

Notation "x <- m ;; k" := (bind m (λ x, k))
  (at level 100, m at next level, right associativity).
Notation "m ;;; k" := (bind m (λ _, k))
  (at level 100, right associativity).

Fixpoint forEach {A : Type} (body : A → M unit) (l : list A) : M unit :=
  match l with
  | [] => ret tt
  | x :: rest => body x ;;; forEach body rest
  end.

Fixpoint foldM {A S : Type} (body : S → A → M S) (l : list A) (s : S) : M S :=
  match l with
  | [] => ret s
  | x :: rest => s' <- body s x ;; foldM body rest s'
  end.

(** *** [commandExecutor.Exec] *)

Definition candidates (e : commandExecutor) (kind : command) : list string :=
  map (λ suf, filepath_Join [dir e; Name (commandSet_ e); command_string kind +:+ suf])
      suffixes.

(** The loop over the suffixes: [os.Stat] on each candidate in turn, up to
    the first that answers without error. *)
Fixpoint discover (paths : list string) : M (option string) :=
  match paths with
  | [] => ret None
  | name :: rest =>
      st <- Stat name ;;
      match st with
      | Some _ => ret (Some name)
      | None => discover rest
      end
  end.

(** Lines 104 to 124: the argument vector, or [None] for
    "command not found". *)
Definition resolve (e : commandExecutor) (kind : command) (ver : string)
  : M (option (list string)) :=
  let args := Select (Set_ (commandSet_ e)) kind in
  if (0 <? len args)%nat
  then ret (Some (Replacer.Map (Replacer.execDict ver GOOS GOARCH) (elems args)))
  else
    found <- discover (candidates e kind) ;;
    match found with
    | Some name => ret (Some [name])
    | None => ret None
    end.

Definition childEnv (environ : list string) (ver : string) : list string :=
  let env := environ ++ ["OS=" +:+ GOOS; "ARCH=" +:+ GOARCH] in
  if decide (ver ≠ "") then env ++ ["VER=" +:+ ver] else env.

(** Lines 98 to 148.  [exec.CommandContext(ctx, args[0])] makes the
    argument vector [[args[0]]] and line 128 replaces it by [args] when
    there is more than one argument: the child gets [args] either way.
    The streams and the context are part of the world. *)
Definition Exec (e : commandExecutor) (kind : command) (ver : string) (verbose : bool)
  : M (string * option error) :=
  emit (EvExec (Name (commandSet_ e)) kind ver verbose) ;;;
  r <- resolve e kind ver ;;
  match r with
  | None => ret ("", Some (Errorf "command not found" []))
  | Some args =>
      environ <- Environ ;;
      Run args (childEnv environ ver) verbose
  end.

(** *** The loops of [main] *)

(** Format strings are kept as they are spelled in the source. *)

(** Lines 362 to 387, the body of the [install] loop. *)
Definition installOne (pinnedVersions : gmap string string) (fl : flags)
    (e : commandExecutor) : M unit :=
  let name := Name (commandSet_ e) in
  Printf "installing %q...\n\n" [VStr name] ;;;
  r <- Exec e commandVer "" false ;;
  match r with
  | (out, None) =>
      Printf "Skipping %q: seems already installed at version %s\n"
        [VStr name; VStr (strings_TrimSpace out)]
  | (_, Some _) =>
      r <- Exec e commandChecklatest "" false ;;
      ver <- match r with
             | (out, None) => ret (strings_TrimSpace out)
             | (_, Some err) =>
                 Printf "\nfetching latest version failed with err %v\nNow trying with no version specified\n"
                   [VErr err] ;;;
                 ret ""
             end ;;
      r <- Exec e commandInstall (cmp_Or (index pinnedVersions name) ver) (flag_v fl) ;;
      match r with
      | (_, Some err) =>
          let err := Wrapf "install %q: %w" [name] err in
          if negb (flag_f fl) then panic err
          else Printf "warn: failed: %v\n" [VErr err]
      | (_, None) => Printf "\n\ninstalling %q done!\n" [VStr name]
      end
  end.

(** Lines 389 to 399 and 402 to 412: the bodies of the [ver] and the
    [checklatest] loop are the same text up to the operation [kind], its
    name in the error and the map written to. *)
Definition queryOne (kind : command) (fl : flags) (versions : gmap string string)
    (e : commandExecutor) : M (gmap string string) :=
  let name := Name (commandSet_ e) in
  r <- Exec e kind "" false ;;
  match r with
  | (out, err) =>
      match err with
      | Some err =>
          let err := Wrapf (command_string kind +:+ " %q: %w") [name] err in
          if negb (flag_f fl) then panic err
          else Printf "warn: failed: %v\n" [VErr err]
      | None => ret tt
      end ;;;
      ret (<[name := strings_TrimSpace out]> versions)
  end.

Definition queryAll (kind : command) (fl : flags) (execs : list commandExecutor) : M unit :=
  versions <- foldM (queryOne kind fl) execs ∅ ;;
  Printf "%s\n" [VMap versions].

(** Lines 415 to 432: current and latest version of one target. *)
Definition gatherOne (fl : flags) (maps : gmap string string * gmap string string)
    (e : commandExecutor) : M (gmap string string * gmap string string) :=
  let name := Name (commandSet_ e) in
  r <- Exec e commandVer "" (flag_v fl) ;;
  currentVersions <-
    match r with
    | (_, Some err) => panic (Wrapf "ver %q: %w" [name] err)
    | (out, None) => ret (<[name := strings_TrimSpace out]> (fst maps))
    end ;;
  r <- Exec e commandChecklatest "" (flag_v fl) ;;
  latestVersions <-
    match r with
    | (_, Some err) => panic (Wrapf "checklatest %q: %w" [name] err)
    | (out, None) => ret (<[name := strings_TrimSpace out]> (snd maps))
    end ;;
  ret (currentVersions, latestVersions).

(** The version an update aims at (line 441). *)
Definition effectiveVersion (pinnedVersions latestVersions : gmap string string)
    (name : string) : string :=
  cmp_Or (index pinnedVersions name) (index latestVersions name).

(** Lines 439 to 452: the decision for one target. *)
Definition planOne (pinnedVersions currentVersions latestVersions : gmap string string)
    (updates : list targetedExecutor) (e : commandExecutor) : M (list targetedExecutor) :=
  let name := Name (commandSet_ e) in
  let tgt := effectiveVersion pinnedVersions latestVersions name in
  Printf "%q: %s -> %s" [VStr name; VStr (index currentVersions name); VStr tgt] ;;;
  (if decide (index pinnedVersions name ≠ "") then Printf "(pinned)" [] else ret tt) ;;;
  if decide (index currentVersions name = tgt)
  then Printf ": no update\n" [] ;;; ret updates
  else Printf "\n" [] ;;; ret (updates ++ [{| tgt := tgt; executor := e |}]).

(** Lines 454 to 461: one queued update. *)
Definition updateOne (fl : flags) (t : targetedExecutor) : M unit :=
  let name := Name (commandSet_ (executor t)) in
  Printf "updating %q...\n\n" [VStr name] ;;;
  r <- Exec (executor t) commandUpdate (tgt t) (flag_v fl) ;;
  match r with
  | (_, Some err) => panic (Wrapf "updating %q: %w" [name] err)
  | (_, None) => Printf "\n\nupdated %q!\n" [VStr name]
  end.

Definition gatherAll (fl : flags) (execs : list commandExecutor)
  : M (gmap string string * gmap string string) :=
  foldM (gatherOne fl) execs (∅, ∅).

Definition planAll (pinnedVersions currentVersions latestVersions : gmap string string)
    (execs : list commandExecutor) : M (list targetedExecutor) :=
  foldM (planOne pinnedVersions currentVersions latestVersions) execs [].

Definition updateAll (pinnedVersions : gmap string string) (fl : flags)
    (execs : list commandExecutor) : M unit :=
  maps <- gatherAll fl execs ;;
  updates <- planAll pinnedVersions (fst maps) (snd maps) execs ;;
  forEach (updateOne fl) updates.

(** The target names of a list of executors. *)
Definition names (execs : list commandExecutor) : list string :=
  map (λ e, Name (commandSet_ e)) execs.

(** The [switch] of line 360. *)
Definition dispatch (cmd : command) (pinnedVersions : gmap string string) (fl : flags)
    (execs : list commandExecutor) : M unit :=
  match cmd with
  | commandInstall => forEach (installOne pinnedVersions fl) execs
  | commandVer => queryAll commandVer fl execs
  | commandChecklatest => queryAll commandChecklatest fl execs
  | commandUpdate => updateAll pinnedVersions fl execs
  end.

(** *** Pinned versions *)

Definition ReadPinFile (path : string) : M (readResult (gmap string string)) :=
  λ w, (Ok (readPinFile w path), w, []).

Definition ReadSetFile (path : string) : M (readResult commandSet) :=
  λ w, (Ok (readSetFile w path), w, []).

Definition ReadDir (path : string) : M (error + list FileInfo) :=
  λ w, (Ok (readDir w path), w, []).

(** Lines 233 to 245. *)
Definition loadPinnedVersions (cfgDir : string) : M (gmap string string) :=
  r <- ReadPinFile (filepath_Join [cfgDir; pinnedVersionsFileName]) ;;
  match r with
  | ReadNotExist _ => ret ∅
  | ReadOpenError err => panic err
  | ReadDecodeError err => panic err
  | ReadOk pinnedVersions => ret pinnedVersions
  end.

Definition untrimmed (kv : string * string) : Prop :=
  fst kv ≠ strings_TrimSpace (fst kv) ∨ snd kv ≠ strings_TrimSpace (snd kv).

#[local] Instance untrimmed_dec kv : Decision (untrimmed kv).
Proof. unfold untrimmed. apply _. Defined.

(** Lines 247 to 251, over the entries in the order the [range] visits
    them: the first entry with a stray space decides the panic. *)
Fixpoint checkPinnedEntries (entries : list (string * string)) : option error :=
  match entries with
  | [] => None
  | kv :: rest =>
      if decide (untrimmed kv)
      then Some (Errorf "pinned version %q has space prefix and/or suffix in name or version"
                   [fst kv])
      else checkPinnedEntries rest
  end.

(** Go leaves the order of a [range] over a map open; the embedding walks
    the entries in the order of [map_to_list]. *)
Definition validatePinnedVersions (pinnedVersions : gmap string string) : M unit :=
  match checkPinnedEntries (map_to_list pinnedVersions) with
  | Some err => panic err
  | None => ret tt
  end.

(** *** Enumeration of the targets *)

(** Lines 254 to 275: one named target. *)
Definition enumerateOne (cfgDir target : string) : M (list namedCommandSet) :=
  r <- ReadSetFile (filepath_Join [cfgDir; target +:+ ".json"]) ;;
  match r with
  | ReadOk set => ret [{| Name := target; Set_ := set |}]
  | ReadDecodeError err => panic err
  | ReadOpenError err => panic err
  | ReadNotExist _ =>
      s <- Stat (filepath_Join [cfgDir; target]) ;;
      match s with
      | None => panic (ErrExternal "stat")
      | Some s =>
          if negb (fi_IsDir s)
          then panic (Errorf "file %[1]q.json or directory %[1]q must exist" [target])
          else ret [{| Name := target; Set_ := zeroCommandSet |}]
      end
  end.

(** The predicate of [xiter.Filter2] (lines 307 to 316) at an entry read
    without error. *)
Definition keepEntry (fi : FileInfo) : bool :=
  (fi_IsRegular fi && HasSuffix (fi_Name fi) ".json"
     && negb (String.eqb (fi_Name fi) pinnedVersionsFileName))
  || fi_IsDir fi.

(** The function of [xiter.Map2] (lines 285 to 305) at such an entry. *)
Definition loadEntry (cfgDir : string) (fi : FileInfo) : M namedCommandSet :=
  if fi_IsRegular fi && HasSuffix (fi_Name fi) ".json" then
    r <- ReadSetFile (filepath_Join [cfgDir; fi_Name fi]) ;;
    match r with
    | ReadOk set => ret {| Name := TrimSuffix (fi_Name fi) ".json"; Set_ := set |}
    | ReadNotExist err => panic err
    | ReadOpenError err => panic err
    | ReadDecodeError err => panic err
    end
  else if fi_IsDir fi then ret {| Name := fi_Name fi; Set_ := zeroCommandSet |}
  else ret {| Name := ""; Set_ := zeroCommandSet |}.

Fixpoint mapM {A B : Type} (f : A → M B) (l : list A) : M (list B) :=
  match l with
  | [] => ret []
  | x :: rest => y <- f x ;; ys <- mapM f rest ;; ret (y :: ys)
  end.

(** Lines 325 to 343. *)
Definition sortAndCompact (sets : list namedCommandSet) : list namedCommandSet :=
  CompactFunc (slices_SortFunc sets compareSets) sameName.

(** Lines 277 to 343: all targets of the configuration directory.  An
    error of the listing or of a file ends the run. *)
Definition enumerateAll (cfgDir : string) : M (list namedCommandSet) :=
  d <- ReadDir cfgDir ;;
  match d with
  | inl err => panic err
  | inr infos =>
      sets <- mapM (loadEntry cfgDir) (filter (λ fi, keepEntry fi = true) infos) ;;
      ret (sortAndCompact sets)
  end.

(** [main] from line 233 on: the configuration directory, the target name
    (empty for all targets), the operation and the flags are those the
    command line gave. *)
Definition main (cfgDir target : string) (cmd : command) (fl : flags) : M unit :=
  pinnedVersions <- loadPinnedVersions cfgDir ;;
  validatePinnedVersions pinnedVersions ;;;
  sets <- (if decide (target ≠ "") then enumerateOne cfgDir target
           else enumerateAll cfgDir) ;;
  dispatch cmd pinnedVersions fl (map (newCommandExecutor cfgDir) sets).

(** What [slices.SortFunc] promises.  It asks for a comparison that is a
    strict weak ordering; of [cmp] it only ever tests [cmp a b < 0], so the
    ordering meant is that "less": it has to be asymmetric and, for any
    third element, less must hold on one of the two sides.  The result is
    then a rearrangement of the input in which no element is less than one
    before it. *)
Definition lessBy {A : Type} (cmp : A → A → Z) (a b : A) : Prop := (cmp a b < 0)%Z.

Definition notAfter {A : Type} (cmp : A → A → Z) (a b : A) : Prop := ¬ lessBy cmp b a.

Definition strictWeak {A : Type} (cmp : A → A → Z) : Prop :=
  (∀ a b, lessBy cmp a b → ¬ lessBy cmp b a)
  ∧ (∀ a b c, lessBy cmp a c → lessBy cmp a b ∨ lessBy cmp b c).

Definition SortFunc_contract : Prop :=
  ∀ cmp, strictWeak cmp →
    ∀ l, Permutation l (slices_SortFunc l cmp)
         ∧ StronglySorted (notAfter cmp) (slices_SortFunc l cmp).

End Program.

(** ** The front of [main]: configuration directory, scaffolding, arguments *)

(** [os.OpenFile] with [O_CREATE|O_EXCL] and [os.Mkdir]: the thing was made
    (and the world changed), it was there already ([fs.ErrExist]), or the
    call failed otherwise. *)
Inductive createResult (W : Type) : Type :=
| Created (w : W)
| Existed
| CreateFailed (e : error).
Arguments Created {W} w.
Arguments Existed {W}.
Arguments CreateFailed {W} e.

(** What is written to a new file: a command set through [json.Encoder], or
    text through [fmt.Fprintf]. *)
Inductive content : Type :=
| JSONDoc (c : commandSet)
| TextDoc (s : string).

(** The file system calls of the scaffolding, in order: an exclusive open
    (and whether it made the file), a write to the file just opened, a
    [Mkdir]. *)
Inductive fsEvent : Type :=
| FsOpenExcl (path : string) (created : bool)
| FsWrite (path : string) (c : content)
| FsMkdir (path : string).

Definition newline : string := String (ascii_of_nat 10) EmptyString.

(** The command set written for a new target (lines 179 to 184): four
    empty slices that are not nil. *)
Definition emptyCommandSet : commandSet :=
  {| Ver := Some []; CheckLatest := Some []; Install := Some []; Update := Some [] |}.

(** The flags [-dir], [-v], [-f] and [-new] (lines 29 to 34). *)
Record options : Type := {
  opt_dir : string;
  opt_v : bool;
  opt_f : bool;
  opt_n : string
}.

(** [slices.Contains(cmds, command(cmd))] (line 229) with the constant
    found. *)
Definition parseCommand (s : string) : option command :=
  List.find (λ c, String.eqb (command_string c) s) cmds.

(** Lines 218 to 231: target and operation from the positional arguments. *)
Definition parseArgs (args : list string) : error + (string * command) :=
  let check := λ (target cmd : string),
    match parseCommand cmd with
    | Some c => inr (target, c)
    | None => inl (Errorf "unknown command: must be one of %v" (map command_string cmds))
    end in
  match args with
  | [target; cmd] => check target cmd
  | [cmd] => check "" cmd
  | _ => inl (Errorf "wrong args length: want 2 or 1, got %d" [pretty (length args)])
  end.

(** A trace of file system calls in which a write only ever goes to the
    file the call just before it created. *)
Fixpoint writesOnlyCreated (t : list fsEvent) : Prop :=
  match t with
  | [] => True
  | FsOpenExcl p true :: rest =>
      match rest with
      | FsWrite q _ :: rest' => p = q ∧ writesOnlyCreated rest'
      | _ => False
      end
  | FsWrite _ _ :: _ => False
  | _ :: rest => writesOnlyCreated rest
  end.

Definition fsPath (ev : fsEvent) : string :=
  match ev with
  | FsOpenExcl p _ => p
  | FsWrite p _ => p
  | FsMkdir p => p
  end.

(** The operations a run of [cmd] may call [Exec] with. *)
Definition mayCall (cmd kind : command) : bool :=
  match cmd, kind with
  | commandVer, commandVer => true
  | commandChecklatest, commandChecklatest => true
  | commandInstall, (commandVer | commandChecklatest | commandInstall) => true
  | commandUpdate, (commandVer | commandChecklatest | commandUpdate) => true
  | _, _ => false
  end.

Definition is_printf (ev : event) : bool :=
  match ev with
  | EvPrintf _ _ => true
  | _ => false
  end.

(** What else the program is given: the calls of the scaffolding and of the
    lookup of the configuration directory. *)
Class Host `{!Platform} : Type := {
  (** [os.UserConfigDir] and [os.Getenv]. *)
  os_UserConfigDir : World → error + string;
  os_Getenv : World → string → string;
  (** [os.OpenFile(path, O_RDWR|O_CREATE|O_EXCL, ModePerm)]. *)
  os_OpenFile_excl : World → string → createResult World;
  (** Writing to the file just opened and closing it: the error of the
      write, if any, and the world after. *)
  file_WriteClose : World → string → content → option error * World;
  (** [os.Mkdir]. *)
  os_Mkdir : World → string → createResult World
}.

Section Front.

Context `{!Platform} `{!Host}.

(** Computations of the scaffolding, with a trace of file system calls. *)
Definition F (A : Type) : Type := World → outcome A * World * list fsEvent.

Definition retF {A : Type} (a : A) : F A := λ w, (Ok a, w, []).

Definition bindF {A B : Type} (m : F A) (k : A → F B) : F B :=
  λ w,
    match m w with
    | (Ok a, w1, t1) =>
        match k a w1 with
        | (r, w2, t2) => (r, w2, t1 ++ t2)
        end
    | (Panic e, w1, t1) => (Panic e, w1, t1)
    end.

Fixpoint forEachF {A : Type} (body : A → F unit) (l : list A) : F unit :=
  match l with
  | [] => retF tt
  | x :: rest => bindF (body x) (λ _, forEachF body rest)
  end.

(** The [switch] of lines 172 to 189 and of lines 203 to 213: an existing
    file is left alone, a new one is written and closed, any other error of
    the open and any error of the write is a panic.  What is written is
    made once the file is open. *)
Definition createWith (path : string) (makeContent : World → content) : F unit :=
  λ w,
    match os_OpenFile_excl w path with
    | Existed => (Ok tt, w, [FsOpenExcl path false])
    | Created w1 =>
        let c := makeContent w1 in
        match file_WriteClose w1 path c with
        | (Some err, w2) => (Panic err, w2, [FsOpenExcl path true; FsWrite path c])
        | (None, w2) => (Ok tt, w2, [FsOpenExcl path true; FsWrite path c])
        end
    | CreateFailed err => (Panic err, w, [FsOpenExcl path false])
    end.

(** Lines 190 to 193. *)
Definition mkdirIfMissing (path : string) : F unit :=
  λ w,
    match os_Mkdir w path with
    | Created w1 => (Ok tt, w1, [FsMkdir path])
    | Existed => (Ok tt, w, [FsMkdir path])
    | CreateFailed err => (Panic err, w, [FsMkdir path])
    end.

(** Lines 196 to 201. *)
Definition scriptSuffix : string :=
  if decide (GOOS = "windows") then ".ps1" else ".sh".

Definition scriptName (cfgDir n : string) (c : command) : string :=
  filepath_Join [cfgDir; n; command_string c] +:+ scriptSuffix.

(** Line 208. *)
Definition shebang (w : World) : content :=
  TextDoc ("#!" +:+ cmp_Or (os_Getenv w "SHELL") "/bin/bash" +:+ newline).

(** Lines 170 to 216: the files of a new target. *)
Definition scaffold (cfgDir n : string) : F unit :=
  bindF (createWith (filepath_Join [cfgDir; n +:+ ".json"]) (λ _, JSONDoc emptyCommandSet))
    (λ _, bindF (mkdirIfMissing (filepath_Join [cfgDir; n]))
       (λ _, forEachF (λ c, createWith (scriptName cfgDir n c) shebang) cmds)).

(** The paths a scaffolding of [n] may touch. *)
Definition scaffoldPaths (cfgDir n : string) : list string :=
  filepath_Join [cfgDir; n +:+ ".json"] :: filepath_Join [cfgDir; n]
    :: map (scriptName cfgDir n) cmds.

(** Lines 160 to 168. *)
Definition resolveCfgDir (o : options) (w : World) : error + string :=
  if decide (opt_dir o = "") then
    match os_UserConfigDir w with
    | inl err => inl (Wrapf "getting os.UserConfigDir: %w" [] err)
    | inr userCfgDir => inr (filepath_Join [userCfgDir; "ngpkgmgr"])
    end
  else inr (opt_dir o).

(** How a run of the program ends: it panicked before doing anything, it
    scaffolded a target, or it went on to the operations. *)
Inductive ran : Type :=
| Refused (e : error)
| Scaffolded (r : outcome unit * World * list fsEvent)
| Operated (r : outcome unit * World * list event).

(** [main] (lines 154 to 463) after [flag.Parse]. *)
Definition program (o : options) (args : list string) (w : World) : ran :=
  match resolveCfgDir o w with
  | inl err => Refused err
  | inr cfgDir =>
      if decide (opt_n o ≠ "") then Scaffolded (scaffold cfgDir (opt_n o) w)
      else
        match parseArgs args with
        | inl err => Refused err
        | inr (target, cmd) =>
            Operated (main cfgDir target cmd {| flag_v := opt_v o; flag_f := opt_f o |} w)
        end
  end.

(** The entries of [Exec] in a trace. *)
Definition execEntries (t : list event) : list event := List.filter is_exec t.

(** The targets for which a trace has an entry of [Exec] with the operation
    [kind], in order. *)
Definition visited (kind : command) (t : list event) : list string :=
  omap (λ ev, match ev with
              | EvExec n k _ _ => if decide (k = kind) then Some n else None
              | _ => None
              end) t.

(** The target is behind the version its update aims at (line 446). *)
Definition stale (pinnedVersions currentVersions latestVersions : gmap string string)
    (e : commandExecutor) : bool :=
  bool_decide (index currentVersions (Name (commandSet_ e))
               ≠ effectiveVersion pinnedVersions latestVersions (Name (commandSet_ e))).

End Front.


(** ** A small platform to run the program on *)

Module Demo.

(** The files that exist, the entries of the configuration directory and
    the content of its command set files, what each program prints and
    whether it exits with success, the content of the pin file, and the
    argument vectors of the children that ran to a good end. *)
Record world : Type := {
  files : list string;
  listing : list FileInfo;
  setFiles : list (string * commandSet);
  programs : list (string * (string * bool));
  pins : readResult (gmap string string);
  applied : list (list string)
}.

Fixpoint assoc {A : Type} (k : string) (l : list (string * A)) : option A :=
  match l with
  | [] => None
  | (k', a) :: rest => if String.eqb k k' then Some a else assoc k rest
  end.

Definition stat (w : world) (path : string) : option FileInfo :=
  if bool_decide (path ∈ files w)
  then Some {| fi_Name := path; fi_IsRegular := true; fi_IsDir := false |}
  else None.

Definition run (w : world) (argv env : list string) : string * option error * world :=
  match assoc (hd "" argv) (programs w) with
  | Some (out, true) =>
      (out, None,
       {| files := files w; listing := listing w; setFiles := setFiles w;
          programs := programs w; pins := pins w;
          applied := applied w ++ [argv] |})
  | Some (out, false) => (out, Some (ErrExternal "exit status 1"), w)
  | None => ("", Some (ErrExternal "executable file not found"), w)
  end.

Fixpoint trimLeft (s : string) : string :=
  match s with
  | EmptyString => EmptyString
  | String c rest => if Ascii.is_space c then trimLeft rest else s
  end.

Definition trimSpace (s : string) : string :=
  String.rev (trimLeft (String.rev (trimLeft s))).

Definition join (parts : list string) : string :=
  String.concat "/" (filter (λ p, p ≠ "") parts).

Definition platform : Platform := {|
  World := world;
  GOOS := "linux";
  GOARCH := "amd64";
  filepath_Join := join;
  strings_TrimSpace := trimSpace;
  os_Stat := stat;
  os_Environ := λ _, ["HOME=/root"];
  cmd_Run := run;
  readPinFile := λ w _, pins w;
  readSetFile := λ w path,
    match assoc path (setFiles w) with
    | Some set => ReadOk set
    | None => ReadNotExist (ErrExternal "no such file")
    end;
  readDir := λ w _, inr (listing w);
  slices_SortFunc := λ l cmp, insertionSort cmp l
|}.

Definition scripted (t : list string) : commandSet :=
  {| Ver := Some t; CheckLatest := None; Install := None; Update := None |}.

Definition bare (name : string) : commandExecutor :=
  newCommandExecutor "/cfg" {| Name := name; Set_ := zeroCommandSet |}.

(** [x] has scripts [ver.sh], [checklatest] and [install.sh]; [ver.sh]
    fails. *)
Definition fresh : world := {|
  files := ["/cfg/x/ver.sh"; "/cfg/x/checklatest"; "/cfg/x/install.sh"];
  listing := [];
  setFiles := [];
  programs := [("/cfg/x/ver.sh", ("", false));
               ("/cfg/x/checklatest", (" 2.3.1 ", true));
               ("/cfg/x/install.sh", ("ok", true))];
  pins := ReadNotExist (ErrExternal "no such file");
  applied := []
|}.

(** As [fresh], but [checklatest] fails too and [x] is pinned. *)
Definition offline : world := {|
  files := ["/cfg/x/ver.sh"; "/cfg/x/checklatest"; "/cfg/x/install.sh"];
  listing := [];
  setFiles := [];
  programs := [("/cfg/x/ver.sh", ("", false));
               ("/cfg/x/checklatest", ("", false));
               ("/cfg/x/install.sh", ("ok", true))];
  pins := ReadOk {["x" := "1.0"]};
  applied := []
|}.

(** A target whose four operations are templates. *)
Definition tool (name : string) : commandExecutor :=
  newCommandExecutor "/cfg"
    {| Name := name;
       Set_ := {| Ver := Some ["ver-" +:+ name];
                  CheckLatest := Some ["latest-" +:+ name];
                  Install := Some ["install-" +:+ name; "${VER}"];
                  Update := Some ["update-" +:+ name; "--to=${VER}"] |} |}.

(** [a] is behind and its update works, [b] is up to date, the update of
    [c] fails, and [d] cannot tell its latest version. *)
Definition shelf : world := {|
  files := [];
  listing := [];
  setFiles := [];
  programs := [("ver-a", ("1.0 ", true)); ("latest-a", (" 1.1", true));
               ("update-a", ("", true));
               ("ver-b", ("2.0", true)); ("latest-b", ("2.0", true));
               ("ver-c", ("3.0", true)); ("latest-c", ("3.1", true));
               ("update-c", ("", false));
               ("ver-d", ("4.0", true)); ("latest-d", ("", false))];
  pins := ReadNotExist (ErrExternal "no such file");
  applied := []
|}.

(** The pin file of scenario E: a key with a leading space. *)
Definition mispinned : world := {|
  files := [];
  listing := [];
  setFiles := [];
  programs := [];
  pins := ReadOk {[" x" := "1.0"]};
  applied := []
|}.

(** A configuration directory where [x] is made by a directory and by a
    file, next to the pin file and a directory [y]. *)
Definition configured : world := {|
  files := [];
  listing := [{| fi_Name := "x"; fi_IsRegular := false; fi_IsDir := true |};
              {| fi_Name := ".pin.json"; fi_IsRegular := true; fi_IsDir := false |};
              {| fi_Name := "y"; fi_IsRegular := false; fi_IsDir := true |};
              {| fi_Name := "x.json"; fi_IsRegular := true; fi_IsDir := false |};
              {| fi_Name := "notes.txt"; fi_IsRegular := true; fi_IsDir := false |}];
  setFiles := [("/cfg/x.json", scripted ["x-version"])];
  programs := [];
  pins := ReadNotExist (ErrExternal "no such file");
  applied := []
|}.

Definition queued (name version : string) : targetedExecutor :=
  {| tgt := version; executor := tool name |}.

Definition quiet : flags := {| flag_v := false; flag_f := false |}.

Definition forced : flags := {| flag_v := false; flag_f := true |}.

(** Creating a path that is not there adds it to the files. *)
Definition create (w : world) (path : string) : createResult world :=
  if bool_decide (path ∈ files w) then Existed
  else Created {| files := files w ++ [path]; listing := listing w;
                  setFiles := setFiles w; programs := programs w; pins := pins w;
                  applied := applied w |}.

Definition host : @Host platform :=
  @Build_Host platform
    (λ _, inr "/home/u/.config")
    (λ _ _, "")
    create
    (λ w _ _, (None, w))
    create.

(** The target [t] has been scaffolded already. *)
Definition scaffolded : world := {|
  files := ["/cfg/t.json"; "/cfg/t"; "/cfg/t/ver.sh"; "/cfg/t/checklatest.sh";
            "/cfg/t/install.sh"; "/cfg/t/update.sh"];
  listing := [];
  setFiles := [];
  programs := [];
  pins := ReadNotExist (ErrExternal "no such file");
  applied := []
|}.


(** The listing has a command set file [z.json] that cannot be read. *)
Definition broken : world := {|
  files := [];
  listing := [{| fi_Name := "y"; fi_IsRegular := false; fi_IsDir := true |};
              {| fi_Name := "z.json"; fi_IsRegular := true; fi_IsDir := false |};
              {| fi_Name := "x.json"; fi_IsRegular := true; fi_IsDir := false |}];
  setFiles := [("/cfg/x.json", scripted ["x-version"])];
  programs := [];
  pins := ReadNotExist (ErrExternal "no such file");
  applied := []
|}.

(** As [stat], and the directories of the listing are found under [/cfg]. *)
Definition statListed (w : world) (path : string) : option FileInfo :=
  match stat w path with
  | Some fi => Some fi
  | None =>
      List.find (λ fi, fi_IsDir fi && String.eqb (join ["/cfg"; fi_Name fi]) path) (listing w)
  end.

Definition listed : Platform := {|
  World := world;
  GOOS := "linux";
  GOARCH := "amd64";
  filepath_Join := join;
  strings_TrimSpace := trimSpace;
  os_Stat := statListed;
  os_Environ := λ _, ["HOME=/root"];
  cmd_Run := run;
  readPinFile := λ w _, pins w;
  readSetFile := λ w path,
    match assoc path (setFiles w) with
    | Some set => ReadOk set
    | None => ReadNotExist (ErrExternal "no such file")
    end;
  readDir := λ w _, inr (listing w);
  slices_SortFunc := λ l cmp, insertionSort cmp l
|}.

(** The options of [-dir /cfg -f]. *)
Definition inCfg : options :=
  {| opt_dir := "/cfg"; opt_v := false; opt_f := true; opt_n := "" |}.


End Demo.

Example replace_demo :
  Replacer.Map (Replacer.execDict "1.2" "linux" "amd64")
    ["get"; "--v=${VER}"; "${OS}-${ARCH}-${OS}"; "$${VER}"; "${VERSION}"]
  = ["get"; "--v=1.2"; "linux-amd64-linux"; "$1.2"; "${VERSION}"].
Proof. vm_compute. reflexivity. Qed.

Example demo_trim : Demo.trimSpace "  2.3.1 " = "2.3.1".
Proof. reflexivity. Qed.

Example demo_exec_discovery :
  @Exec Demo.platform (Demo.bare "x") commandVer "" false Demo.fresh
  = (Ok ("", Some (ErrExternal "exit status 1")), Demo.fresh,
     [EvExec "x" commandVer "" false;
      EvStat "/cfg/x/ver"; EvStat "/cfg/x/ver.sh";
      EvRun ["/cfg/x/ver.sh"] ["HOME=/root"; "OS=linux"; "ARCH=amd64"] false]).
Proof. vm_compute. reflexivity. Qed.

(** ** Placeholder substitution: facts *)

Module ReplacerFacts.
Import Replacer.

Lemma prefix_empty (s : string) : String.prefix "" s = true.
Proof. destruct s; reflexivity. Qed.

Lemma prefix_app (k t : string) : String.prefix k (k +:+ t) = true.
Proof.
  induction k as [|c k IH]; [apply prefix_empty|].
  change (String c k +:+ t) with (String c (k +:+ t)). simpl.
  destruct (ascii_dec c c); [exact IH | congruence].
Qed.

Lemma matchAt_hit k v rest s :
  k ≠ "" → String.prefix k s = true → matchAt ((k, v) :: rest) s = Some (k, v).
Proof. intros Hk Hp. simpl. rewrite decide_False by exact Hk. by rewrite Hp. Qed.

Lemma matchAt_miss k v rest s :
  String.prefix k s = false → matchAt ((k, v) :: rest) s = matchAt rest s.
Proof. intros Hp. simpl. rewrite Hp. by destruct (decide (k = "")). Qed.


Lemma replaceFrom_skip entries (s t : string) :
  replaceFrom entries (String.length s) (s +:+ t) = replaceFrom entries 0 t.
Proof.
  induction s as [|c s IH]; [reflexivity|].
  change (String c s +:+ t) with (String c (s +:+ t)). simpl. exact IH.
Qed.

(** A placeholder at the head of the text is replaced by its value and the
    pass goes on behind it. *)
Lemma replaceFrom_hit entries c (k t v : string) :
  matchAt entries (String c k +:+ t) = Some (String c k, v) →
  replaceFrom entries 0 (String c k +:+ t) = v +:+ replaceFrom entries 0 t.
Proof.
  intros Hm. change (String c k +:+ t) with (String c (k +:+ t)) in *.
  simpl replaceFrom. rewrite Hm.
  replace (String.length (String c k) - 1) with (String.length k)
    by (simpl; lia).
  by rewrite replaceFrom_skip.
Qed.

Lemma replaceFrom_copy entries c (s : string) :
  matchAt entries (String c s) = None →
  replaceFrom entries 0 (String c s) = String c (replaceFrom entries 0 s).
Proof. intros Hm. simpl. by rewrite Hm. Qed.

Lemma execDict_entries ver goos goarch :
  map_to_list (execDict ver goos goarch)
  = [("${OS}", goos); ("${ARCH}", goarch); ("${VER}", ver)].
Proof. vm_compute. reflexivity. Qed.





(** The equations of a pass with the dictionary of [Exec]. *)
Lemma replaceToken_exec ver goos goarch :
  let r := replaceToken (execDict ver goos goarch) in
  r "" = ""
  ∧ (∀ t, r ("${VER}" +:+ t) = ver +:+ r t)
  ∧ (∀ t, r ("${OS}" +:+ t) = goos +:+ r t)
  ∧ (∀ t, r ("${ARCH}" +:+ t) = goarch +:+ r t)
  ∧ (∀ c t,
       String.prefix "${VER}" (String c t) = false →
       String.prefix "${OS}" (String c t) = false →
       String.prefix "${ARCH}" (String c t) = false →
       r (String c t) = String c (r t)).
Proof.
  intros r. subst r. unfold replaceToken. rewrite execDict_entries.
  split; [reflexivity|].
  split; [|split; [|split]].
  - intros t. apply replaceFrom_hit.
    rewrite !matchAt_miss by reflexivity.
    apply matchAt_hit; [discriminate|apply prefix_app].
  - intros t. apply replaceFrom_hit.
    apply matchAt_hit; [discriminate|apply prefix_app].
  - intros t. apply replaceFrom_hit.
    rewrite matchAt_miss by reflexivity.
    apply matchAt_hit; [discriminate|apply prefix_app].
  - intros c t Hv Ho Ha. apply replaceFrom_copy.
    by rewrite !matchAt_miss.
Qed.

End ReplacerFacts.




(** ** Ordering facts *)

Lemma compare_refl (a : string) : String.compare a a = Eq.
Proof.
  pose proof (String.compare_antisym a a) as H.
  destruct (String.compare a a); simpl in H; congruence.
Qed.

Lemma compare_Gt_Lt (a b : string) : String.compare a b = Gt ↔ String.compare b a = Lt.
Proof.
  rewrite (String.compare_antisym b a). destruct (String.compare a b); simpl; split; congruence.
Qed.

Lemma compare_Lt_le (a b : string) : String.compare a b = Lt → String.le a b.
Proof. intros H. unfold String.le, String.leb. by rewrite H. Qed.

Lemma compare_Lt_trans (a b c : string) :
  String.compare a b = Lt → String.compare b c = Lt → String.compare a c = Lt.
Proof.
  intros Hab Hbc.
  assert (Hac : String.le a c) by (trans b; by apply compare_Lt_le).
  unfold String.le, String.leb in Hac.
  destruct (String.compare a c) eqn:Hcmp; [|reflexivity|by destruct Hac].
  apply String.compare_eq_iff in Hcmp as ->.
  apply compare_Gt_Lt in Hab. congruence.
Qed.

Lemma IsZero_eq (c : commandSet) : IsZero c = true → c = zeroCommandSet.
Proof. destruct c as [[?|] [?|] [?|] [?|]]; by intros [=]. Qed.

Lemma compareSets_less (i j : namedCommandSet) :
  (compareSets i j < 0)%Z ↔
  String.compare (Name i) (Name j) = Lt
  ∨ (Name i = Name j ∧ IsZero (Set_ i) = false ∧ IsZero (Set_ j) = true).
Proof.
  unfold compareSets, cmp_Compare.
  destruct (String.compare (Name i) (Name j)) eqn:Hcmp.
  - apply String.compare_eq_iff in Hcmp. rewrite decide_False by lia.
    destruct (IsZero (Set_ i)), (IsZero (Set_ j)); split; intros H;
      try lia; try (right; done); destruct H as [|(_ & ? & ?)]; congruence.
  - rewrite decide_True by lia. split; [by left|lia].
  - rewrite decide_True by lia. split; [lia|].
    intros [|(Heq & _)]; [congruence|].
    rewrite Heq, compare_refl in Hcmp. congruence.
Qed.

(** "Less" by [compareSets] is asymmetric and its complement is transitive:
    it is a strict weak order. *)
Lemma compareSets_asym (i j : namedCommandSet) :
  (compareSets i j < 0)%Z → ¬ (compareSets j i < 0)%Z.
Proof.
  rewrite !compareSets_less. intros [Hij|(Hn & Hi & Hj)] [Hji|(Hn' & Hj' & Hi')].
  - apply compare_Gt_Lt in Hji. congruence.
  - rewrite Hn', compare_refl in Hij. congruence.
  - rewrite Hn, compare_refl in Hji. congruence.
  - congruence.
Qed.

Lemma compareSets_cotrans (i j k : namedCommandSet) :
  (compareSets i k < 0)%Z → (compareSets i j < 0)%Z ∨ (compareSets j k < 0)%Z.
Proof.
  rewrite !compareSets_less. intros Hik.
  destruct (String.compare (Name i) (Name j)) eqn:Hij; [|by left; left|].
  - apply String.compare_eq_iff in Hij.
    destruct Hik as [Hik|(Hn & Hi & Hk)].
    + right. left. by rewrite <- Hij.
    + destruct (IsZero (Set_ j)) eqn:Hj.
      * left. right. done.
      * right. right. split; [congruence|done].
  - apply compare_Gt_Lt in Hij. right. left.
    destruct Hik as [Hik|(Hn & _ & _)].
    + by eapply compare_Lt_trans.
    + by rewrite <- Hn.
Qed.

Lemma notAfter_names (a b : namedCommandSet) :
  notAfter compareSets a b →
  Name a ≠ Name b → nameBefore a b.
Proof.
  unfold notAfter, lessBy, nameBefore. rewrite compareSets_less. intros Hnot Hne.
  destruct (String.compare (Name a) (Name b)) eqn:Hcmp; [|reflexivity|].
  - by apply String.compare_eq_iff in Hcmp.
  - apply compare_Gt_Lt in Hcmp. destruct Hnot. by left.
Qed.

Lemma notAfter_zero (a b : namedCommandSet) :
  notAfter compareSets a b →
  Name a = Name b → IsZero (Set_ a) = true → IsZero (Set_ b) = true.
Proof.
  unfold notAfter, lessBy. rewrite compareSets_less. intros Hnot Hn Ha.
  destruct (IsZero (Set_ b)) eqn:Hb; [reflexivity|].
  destruct Hnot. right. done.
Qed.

Lemma nameBefore_trans (a b c : namedCommandSet) :
  nameBefore a b → nameBefore b c → nameBefore a c.
Proof. apply compare_Lt_trans. Qed.

Lemma nameBefore_ne (a b : namedCommandSet) : nameBefore a b → Name a ≠ Name b.
Proof. unfold nameBefore. intros H Heq. rewrite Heq, compare_refl in H. congruence. Qed.

(** Compaction of a list that [compareSets] has sorted. *)
Lemma compactAfter_sorted (rest : list namedCommandSet) :
  ∀ prev,
    StronglySorted (notAfter compareSets) (prev :: rest) →
    let out := compactAfter sameName prev rest in
    (∀ y, y ∈ out → y ∈ rest ∧ nameBefore prev y)
    ∧ StronglySorted nameBefore out
    ∧ (∀ x, x ∈ rest →
         Name x = Name prev
         ∨ ∃ y, y ∈ out ∧ Name y = Name x
                ∧ (IsZero (Set_ y) = true → IsZero (Set_ x) = true)).
Proof.
  induction rest as [|x rest IH]; intros prev Hsorted.
  - simpl. split; [intros y Hy; by apply elem_of_nil in Hy|].
    split; [constructor|]. intros x Hx. by apply elem_of_nil in Hx.
  - apply StronglySorted_inv in Hsorted as [Htail Hprev].
    pose proof Htail as Htail'.
    apply StronglySorted_inv in Htail' as [_ Hx].
    rewrite Forall_forall in Hprev, Hx.
    destruct (IH x Htail) as (Hin & Hso & Hcover).
    simpl.
    destruct (decide (Name x = Name prev)) as [Hsame|Hdiff].
    + assert (Hb : sameName x prev = true) by (by apply bool_decide_eq_true_2).
      rewrite Hb.
      split; [|split].
      * intros y Hy. destruct (Hin y Hy) as [Hy' Hlt].
        split; [by right|]. unfold nameBefore in *. by rewrite <- Hsame.
      * exact Hso.
      * intros x' Hx'. apply elem_of_cons in Hx' as [->|Hx']; [by left|].
        destruct (Hcover x' Hx') as [Heq|Hy]; [left; congruence|by right].
    + assert (Hb : sameName x prev = false) by (by apply bool_decide_eq_false_2).
      rewrite Hb.
      assert (Hpx : nameBefore prev x).
      { apply notAfter_names; [|congruence]. apply Hprev. by left. }
      split; [|split].
      * intros y Hy. apply elem_of_cons in Hy as [->|Hy]; [split; [by left|done]|].
        destruct (Hin y Hy) as [Hy' Hlt].
        split; [by right|]. by eapply nameBefore_trans.
      * constructor; [exact Hso|]. apply Forall_forall. intros y Hy. by apply Hin.
      * intros x' Hx'. right. apply elem_of_cons in Hx' as [->|Hx'].
        -- eexists. split; [by left|done].
        -- destruct (Hcover x' Hx') as [Heq|(y & Hy & Hn & Hz)].
           ++ exists x. split; [by left|]. split; [done|].
              apply notAfter_zero; [|done]. by apply Hx.
           ++ exists y. split; [by right|done].
Qed.

Lemma CompactFunc_sorted (l : list namedCommandSet) :
  StronglySorted (notAfter compareSets) l →
  let out := CompactFunc l sameName in
  StronglySorted nameBefore out
  ∧ (∀ y, y ∈ out → y ∈ l)
  ∧ (∀ x, x ∈ l →
       ∃ y, y ∈ out ∧ Name y = Name x
            ∧ (IsZero (Set_ y) = true → IsZero (Set_ x) = true)).
Proof.
  intros Hsorted. destruct l as [|x rest].
  - simpl. split; [constructor|]. split; [done|]. intros x Hx. by apply elem_of_nil in Hx.
  - destruct (compactAfter_sorted rest x Hsorted) as (Hin & Hso & Hcover).
    apply StronglySorted_inv in Hsorted as [_ Hx]. rewrite Forall_forall in Hx.
    simpl. split; [|split].
    + constructor; [exact Hso|]. apply Forall_forall. intros y Hy. by apply Hin.
    + intros y Hy. apply elem_of_cons in Hy as [->|Hy]; [by left|].
      right. by apply Hin.
    + intros x' Hx'. apply elem_of_cons in Hx' as [->|Hx'].
      * eexists. split; [by left|done].
      * destruct (Hcover x' Hx') as [Heq|(y & Hy & Hn & Hz)].
        -- exists x. split; [by left|]. split; [done|].
           apply notAfter_zero; [|done]. by apply Hx.
        -- exists y. split; [by right|done].
Qed.

Lemma StronglySorted_nameBefore_NoDup (l : list namedCommandSet) :
  StronglySorted nameBefore l → NoDup (map Name l).
Proof.
  induction 1 as [|x l Hsorted IH Hall]; simpl; constructor; [|exact IH].
  intros Hin. apply list_elem_of_In, in_map_iff in Hin as (y & Hname & Hy).
  rewrite Forall_forall in Hall. apply list_elem_of_In in Hy.
  apply Hall, nameBefore_ne in Hy. congruence.
Qed.

Lemma substring_all (s : string) : String.substring 0 (String.length s) s = s.
Proof. induction s as [|c s IH]; simpl; [reflexivity|by rewrite IH]. Qed.

Lemma substring_split (s : string) (k : nat) :
  (k ≤ String.length s)%nat →
  String.substring 0 k s +:+ String.substring k (String.length s - k) s = s.
Proof.
  revert k. induction s as [|c s IH]; intros k Hk.
  - simpl in Hk. by replace k with 0 by lia.
  - destruct k as [|k].
    + change (String.substring 0 0 (String c s)) with "".
      rewrite Nat.sub_0_r. unfold String.app. apply substring_all.
    + simpl in Hk. simpl String.substring. simpl String.length.
      change (String c (String.substring 0 k s) +:+ String.substring k (String.length s - k) s)
        with (String c (String.substring 0 k s +:+ String.substring k (String.length s - k) s)).
      rewrite IH by lia. reflexivity.
Qed.

(** A name with the suffix is its trimmed form followed by the suffix. *)
Lemma TrimSuffix_app (s suffix : string) :
  HasSuffix s suffix = true → TrimSuffix s suffix +:+ suffix = s.
Proof.
  intros Hsuf. unfold TrimSuffix. rewrite Hsuf. unfold HasSuffix in Hsuf.
  apply andb_true_iff in Hsuf as [Hlen Heq].
  apply Nat.leb_le in Hlen. apply String.eqb_eq in Heq.
  pose proof (substring_split s (String.length s - String.length suffix)) as Hsplit.
  replace (String.length s - (String.length s - String.length suffix))
    with (String.length suffix) in Hsplit by lia.
  rewrite Heq in Hsplit. apply Hsplit. lia.
Qed.

(** ** Insertion sort *)

Section InsertionSort.

Context {A : Type} (cmp : A → A → Z).
Hypothesis cmp_asym : ∀ a b, (cmp a b < 0)%Z → ¬ (cmp b a < 0)%Z.
Hypothesis cmp_cotrans : ∀ a b c, (cmp a c < 0)%Z → (cmp a b < 0)%Z ∨ (cmp b c < 0)%Z.

Lemma insertLeft_perm (x : A) (l : list A) : insertLeft cmp x l ≡ₚ x :: l.
Proof.
  induction l as [|y l IH]; simpl; [done|].
  destruct (cmp x y <? 0)%Z; [|done].
  rewrite IH. apply Permutation_swap.
Qed.

Lemma insertionSort_perm (l : list A) : l ≡ₚ insertionSort cmp l.
Proof.
  unfold insertionSort. rewrite <- Permutation_rev.
  assert (H : ∀ acc, fold_left (λ acc x, insertLeft cmp x acc) l acc ≡ₚ l ++ acc).
  { induction l as [|x l IH]; intros acc; simpl; [done|].
    rewrite IH, insertLeft_perm. by rewrite Permutation_middle. }
  by rewrite H, app_nil_r.
Qed.

Lemma insertLeft_sorted (x : A) (l : list A) :
  StronglySorted (flip (notAfter cmp)) l →
  StronglySorted (flip (notAfter cmp)) (insertLeft cmp x l).
Proof.
  induction 1 as [|y l Hsorted IH Hall]; simpl.
  - repeat constructor.
  - destruct (cmp x y <? 0)%Z eqn:Hxy.
    + apply Z.ltb_lt in Hxy. constructor; [exact IH|].
      rewrite insertLeft_perm. constructor; [|exact Hall].
      unfold flip, notAfter, lessBy. by apply cmp_asym.
    + apply Z.ltb_ge in Hxy. constructor; [by constructor|].
      constructor; [unfold flip, notAfter, lessBy; lia|].
      eapply Forall_impl; [exact Hall|]. intros z Hyz.
      unfold flip, notAfter, lessBy in *. intros Hxz.
      destruct (cmp_cotrans x y z Hxz); [lia|done].
Qed.

Lemma StronglySorted_rev (R : A → A → Prop) (l : list A) :
  StronglySorted (flip R) l → StronglySorted R (rev l).
Proof.
  induction 1 as [|x l Hsorted IH Hall]; simpl; [constructor|].
  apply StronglySorted_app. split; [|split; [exact IH|repeat constructor]].
  intros a b Ha Hb. apply list_elem_of_singleton in Hb as ->.
  rewrite Forall_forall in Hall. apply Hall.
  by apply list_elem_of_In, in_rev, list_elem_of_In.
Qed.

Lemma insertionSort_sorted (l : list A) :
  StronglySorted (notAfter cmp) (insertionSort cmp l).
Proof.
  unfold insertionSort. apply StronglySorted_rev.
  assert (H : ∀ acc, StronglySorted (flip (notAfter cmp)) acc →
              StronglySorted (flip (notAfter cmp))
                (fold_left (λ acc x, insertLeft cmp x acc) l acc)).
  { induction l as [|x l IH]; intros acc Hacc; simpl; [done|].
    by apply IH, insertLeft_sorted. }
  apply H. constructor.
Qed.

End InsertionSort.

(** ** The program: facts *)

Section Facts.

Context `{!Platform}.

Lemma bind_ok {A B : Type} (m : M A) (k : A → M B) w a w1 t1 :
  m w = (Ok a, w1, t1) →
  bind m k w = (fst (fst (k a w1)), snd (fst (k a w1)), t1 ++ snd (k a w1)).
Proof. unfold bind. intros ->. by destruct (k a w1) as [[r w2] t2]. Qed.

Lemma bind_panic {A B : Type} (m : M A) (k : A → M B) w e w1 t1 :
  m w = (Panic e, w1, t1) → bind m k w = (Panic e, w1, t1).
Proof. unfold bind. by intros ->. Qed.

(** *** Discovery *)

Lemma discover_found (paths : list string) (w : World) (i : nat) (p : string) :
  paths !! i = Some p →
  is_Some (os_Stat w p) →
  (∀ j q, j < i → paths !! j = Some q → os_Stat w q = None) →
  discover paths w = (Ok (Some p), w, EvStat <$> take (S i) paths).
Proof.
  revert i. induction paths as [|q paths IH]; intros i Hi Hp Hbefore; [done|].
  destruct i as [|i]; simpl in Hi.
  - injection Hi as ->. destruct Hp as [fi Hfi].
    simpl. unfold bind, Stat, ret. rewrite Hfi. simpl. by rewrite ?take_0.
  - assert (Hq : os_Stat w q = None) by (apply (Hbefore 0 q); [lia|done]).
    simpl discover. unfold bind at 1, Stat. rewrite Hq.
    rewrite (IH i Hi Hp).
    + reflexivity.
    + intros j r Hj Hr. apply (Hbefore (S j) r); [lia|done].
Qed.

Lemma discover_none (paths : list string) (w : World) :
  (∀ p, p ∈ paths → os_Stat w p = None) →
  discover paths w = (Ok None, w, EvStat <$> paths).
Proof.
  induction paths as [|q paths IH]; intros Hnone; [done|].
  simpl discover. unfold bind at 1, Stat. rewrite (Hnone q) by left.
  rewrite IH; [reflexivity|]. intros p Hp. apply Hnone. by right.
Qed.

Lemma discover_total (paths : list string) (w : World) :
  ∃ r n, discover paths w = (Ok r, w, EvStat <$> take n paths).
Proof.
  induction paths as [|q paths IH]; [by exists None, 0|].
  simpl discover. unfold bind at 1, Stat.
  destruct (os_Stat w q) as [fi|].
  - exists (Some q), 1. simpl. by rewrite ?take_0.
  - destruct IH as (r & n & ->). by exists r, (S n).
Qed.

(** *** [Exec] *)

Lemma resolve_total (e : commandExecutor) (kind : command) (ver : string) (w : World) :
  ∃ r n, resolve e kind ver w = (Ok r, w, EvStat <$> take n (candidates e kind))
         ∧ (0 < len (Select (Set_ (commandSet_ e)) kind) → n = 0).
Proof.
  unfold resolve.
  destruct (0 <? len _)%nat eqn:Hlen.
  - eexists _, 0. by rewrite ?take_0.
  - destruct (discover_total (candidates e kind) w) as (r & n & Hd).
    unfold bind. rewrite Hd.
    apply Nat.ltb_ge in Hlen.
    destruct r; eexists _, n; (split; [unfold ret; by rewrite app_nil_r|lia]).
Qed.

(** [Exec] never panics; its trace is its own entry, the probes of the
    discovery and the run of the child, if any. *)
Lemma Exec_total (e : commandExecutor) (kind : command) (ver : string) (verbose : bool)
    (w : World) :
  ∃ out err w' t,
    Exec e kind ver verbose w
    = (Ok (out, err), w', EvExec (Name (commandSet_ e)) kind ver verbose :: t)
    ∧ ∀ ev, ev ∈ t → is_exec ev = false.
Proof.
  destruct (resolve_total e kind ver w) as (r & n & Hr & _).
  unfold Exec, bind at 1, emit. unfold bind at 1. rewrite Hr.
  destruct r as [args|].
  - unfold bind, Environ, Run.
    destruct (cmd_Run w args _) as [[out err] w'] eqn:Hrun.
    eexists out, err, w', _. split; [reflexivity|].
    intros ev Hev. simpl in Hev.
    rewrite elem_of_app, list_elem_of_fmap, list_elem_of_singleton in Hev.
    destruct Hev as [(p & -> & _)| ->]; reflexivity.
  - unfold ret. eexists _, _, w, _. split; [reflexivity|].
    intros ev Hev. rewrite app_nil_r in Hev.
    apply list_elem_of_fmap in Hev as (p & -> & _). reflexivity.
Qed.

(** C1: with a non-empty template for [kind], [Exec] runs the template
    with the placeholders of every token replaced and never calls
    [os.Stat]; with an empty template it stats the five candidates
    [<dir>/<name>/<kind><suffix>] in the order of the suffixes "", ".sh",
    ".exe", ".bat", ".ps1", runs the first that exists as a one-element
    argument vector, and answers "command not found" when none exists. *)
Theorem Exec_resolves (e : commandExecutor) (kind : command) (ver : string)
    (verbose : bool) (w : World) :
  let name := Name (commandSet_ e) in
  let template := Select (Set_ (commandSet_ e)) kind in
  let env := childEnv (os_Environ w) ver in
  let entry := EvExec name kind ver verbose in
  let subst := Replacer.replaceToken (Replacer.execDict ver GOOS GOARCH) in
  (0 < len template →
     Exec e kind ver verbose w
     = withTrace [entry] (Run (map subst (elems template)) env verbose) w)
  ∧ (len template = 0 →
       candidates e kind
       = [filepath_Join [dir e; name; command_string kind +:+ ""];
          filepath_Join [dir e; name; command_string kind +:+ ".sh"];
          filepath_Join [dir e; name; command_string kind +:+ ".exe"];
          filepath_Join [dir e; name; command_string kind +:+ ".bat"];
          filepath_Join [dir e; name; command_string kind +:+ ".ps1"]]
       ∧ (∀ i p,
            candidates e kind !! i = Some p →
            is_Some (os_Stat w p) →
            (∀ j q, j < i → candidates e kind !! j = Some q → os_Stat w q = None) →
            Exec e kind ver verbose w
            = withTrace (entry :: (EvStat <$> take (S i) (candidates e kind)))
                (Run [p] env verbose) w)
       ∧ ((∀ p, p ∈ candidates e kind → os_Stat w p = None) →
            Exec e kind ver verbose w
            = (Ok ("", Some (Errorf "command not found" [])), w,
               entry :: (EvStat <$> candidates e kind))))
  ∧ (subst "" = ""
     ∧ (∀ t, subst ("${VER}" +:+ t) = ver +:+ subst t)
     ∧ (∀ t, subst ("${OS}" +:+ t) = GOOS +:+ subst t)
     ∧ (∀ t, subst ("${ARCH}" +:+ t) = GOARCH +:+ subst t)
     ∧ (∀ c t,
          String.prefix "${VER}" (String c t) = false →
          String.prefix "${OS}" (String c t) = false →
          String.prefix "${ARCH}" (String c t) = false →
          subst (String c t) = String c (subst t))).
Proof.
  intros name template env entry subst.
  split; [|split]; [| |apply ReplacerFacts.replaceToken_exec].
  - intros Hlen. unfold Exec, resolve. fold template.
    apply Nat.ltb_lt in Hlen. rewrite Hlen.
    unfold bind, emit, ret, Environ, withTrace, Run. fold env.
    change (Replacer.Map (Replacer.execDict ver GOOS GOARCH) (elems template))
      with (map subst (elems template)).
    by destruct (cmd_Run w (map subst (elems template)) env) as [[out err] w'].
  - intros Hlen. split; [reflexivity|].
    assert (Hnot : (0 <? len template)%nat = false) by (apply Nat.ltb_ge; lia).
    split.
    + intros i p Hi Hp Hbefore.
      unfold Exec, resolve. fold template. rewrite Hnot.
      unfold bind at 1, emit. unfold bind at 1. unfold bind at 1.
      rewrite (discover_found _ w i p Hi Hp Hbefore).
      unfold ret, bind, Environ, withTrace, Run. fold env.
      destruct (cmd_Run w [p] env) as [[out err] w'].
      simpl. by rewrite app_nil_r.
    + intros Hnone.
      unfold Exec, resolve. fold template. rewrite Hnot.
      unfold bind at 1, emit. unfold bind at 1. unfold bind at 1.
      rewrite (discover_none _ w Hnone).
      unfold ret. simpl. by rewrite ?app_nil_r.
Qed.



(** *** Loops *)

Lemma foldM_app {A S : Type} (body : S → A → M S) (l1 l2 : list A) (s : S) (w : World) :
  foldM body (l1 ++ l2) s w = bind (foldM body l1 s) (foldM body l2) w.
Proof.
  revert s w. induction l1 as [|x l1 IH]; intros s w; simpl.
  - unfold bind, ret. by destruct (foldM body l2 s w) as [[r w'] t].
  - unfold bind.
    destruct (body s x w) as [[[s'|err] w1] t1]; [|reflexivity].
    rewrite IH. unfold bind.
    destruct (foldM body l1 s' w1) as [[[s2|err] w2] t2]; [|reflexivity].
    destruct (foldM body l2 s2 w2) as [[r w3] t3]. by rewrite app_assoc.
Qed.

Lemma forEach_app {A : Type} (body : A → M unit) (l1 l2 : list A) (w : World) :
  forEach body (l1 ++ l2) w = bind (forEach body l1) (λ _, forEach body l2) w.
Proof.
  revert w. induction l1 as [|x l1 IH]; intros w; simpl.
  - unfold bind, ret. by destruct (forEach body l2 w) as [[r w'] t].
  - unfold bind.
    destruct (body x w) as [[[[]|err] w1] t1]; [|reflexivity].
    rewrite IH. unfold bind.
    destruct (forEach body l1 w1) as [[[[]|err] w2] t2]; [|reflexivity].
    destruct (forEach body l2 w2) as [[r w3] t3]. by rewrite app_assoc.
Qed.

(** *** The [ver] and [checklatest] runs *)

Lemma queryOne_forced (kind : command) (fl : flags) (versions : gmap string string)
    (e : commandExecutor) (w w1 : World) out err t1 :
  flag_f fl = true →
  Exec e kind "" false w = (Ok (out, err), w1, t1) →
  ∃ t2, queryOne kind fl versions e w
        = (Ok (<[Name (commandSet_ e) := strings_TrimSpace out]> versions), w1, t1 ++ t2).
Proof.
  intros Hf HExec. unfold queryOne, bind at 1. rewrite HExec.
  destruct err as [err|]; unfold bind, panic, Printf, emit, ret; rewrite ?Hf; simpl.
  - by eexists.
  - by eexists.
Qed.

Lemma foldM_query_forced (kind : command) (fl : flags) (execs : list commandExecutor) :
  flag_f fl = true →
  ∀ (versions : gmap string string) (w : World),
  ∃ m w' t,
    foldM (queryOne kind fl) execs versions w = (Ok m, w', t)
    ∧ (∀ n, n ∉ names execs → m !! n = versions !! n)
    ∧ (∀ n, n ∈ names execs → is_Some (m !! n)).
Proof.
  intros Hf. induction execs as [|e execs IH]; intros versions w.
  - exists versions, w, []. split; [done|]. split; [done|].
    intros n Hn. by apply elem_of_nil in Hn.
  - destruct (Exec_total e kind "" false w) as (out & err & w1 & t1 & HExec & _).
    destruct (queryOne_forced kind fl versions e w w1 out err _ Hf HExec) as [t2 Hq].
    destruct (IH (<[Name (commandSet_ e) := strings_TrimSpace out]> versions) w1)
      as (m & w' & t & Hfold & Hout & Hin).
    exists m, w', ((EvExec (Name (commandSet_ e)) kind "" false :: t1) ++ t2 ++ t).
    split; [|split].
    + simpl foldM. unfold bind. rewrite Hq, Hfold. by rewrite app_assoc.
    + intros n Hn. unfold names in Hn. simpl in Hn. apply not_elem_of_cons in Hn as [Hne Hn].
      rewrite (Hout n Hn). by rewrite lookup_insert_ne.
    + intros n Hn. unfold names in Hn. simpl in Hn.
      destruct (decide (n ∈ names execs)) as [Hn'|Hn']; [by apply Hin|].
      apply elem_of_cons in Hn as [->|Hn]; [|done].
      rewrite (Hout _ Hn'). rewrite lookup_insert_eq. by eexists.
Qed.

(** C10: with the force flag a [ver] or [checklatest] run never panics
    and ends by printing a map that has an entry for every target, and for
    no other name; the entry of a target is the trimmed text its command
    returned, whether the command failed or not. *)
Theorem query_forced_reports_all (cmd : command) (pinnedVersions : gmap string string)
    (fl : flags) (execs : list commandExecutor) (w : World) :
  cmd = commandVer ∨ cmd = commandChecklatest →
  flag_f fl = true →
  ∃ m w' t,
    dispatch cmd pinnedVersions fl execs w
    = (Ok tt, w', t ++ [EvPrintf "%s\n" [VMap m]])
    ∧ (∀ n, is_Some (m !! n) ↔ n ∈ names execs)
    ∧ (NoDup (names execs) →
       ∀ pre e post, execs = pre ++ e :: post →
         ∃ m1 w1 t1 out err w2 t2,
           foldM (queryOne cmd fl) pre ∅ w = (Ok m1, w1, t1)
           ∧ Exec e cmd "" false w1 = (Ok (out, err), w2, t2)
           ∧ m !! Name (commandSet_ e) = Some (strings_TrimSpace out)).
Proof.
  intros Hcmd Hf.
  assert (Hd : dispatch cmd pinnedVersions fl execs = queryAll cmd fl execs)
    by (by destruct Hcmd as [-> | ->]).
  rewrite Hd. clear Hd Hcmd. unfold queryAll.
  destruct (foldM_query_forced cmd fl execs Hf ∅ w) as (m & w' & t & Hfold & Hout & Hin).
  exists m, w', t. split; [|split].
  - unfold bind. rewrite Hfold. reflexivity.
  - intros n. split; [|apply Hin].
    intros Hsome. destruct (decide (n ∈ names execs)) as [|Hn]; [done|].
    rewrite (Hout n Hn), lookup_empty in Hsome. by destruct Hsome.
  - intros Hnodup pre e post ->.
    rewrite foldM_app in Hfold.
    destruct (foldM_query_forced cmd fl pre Hf ∅ w) as (m1 & w1 & t1 & Hpre & _ & _).
    destruct (Exec_total e cmd "" false w1) as (out & err & w2 & t2 & HExec & _).
    destruct (queryOne_forced cmd fl m1 e w1 w2 out err _ Hf HExec) as [t3 Hq].
    set (m2 := <[Name (commandSet_ e) := strings_TrimSpace out]> m1) in *.
    destruct (foldM_query_forced cmd fl post Hf m2 w2) as (m3 & w3 & t4 & Hpost & Hout3 & _).
    unfold bind in Hfold. rewrite Hpre in Hfold. simpl foldM in Hfold.
    unfold bind in Hfold. rewrite Hq, Hpost in Hfold.
    injection Hfold as <- <- <-.
    eexists m1, w1, t1, out, err, w2, _. split; [done|]. split; [exact HExec|].
    unfold names in Hnodup. rewrite map_app in Hnodup. simpl in Hnodup.
    apply NoDup_app in Hnodup as (_ & _ & Hnodup).
    apply NoDup_cons in Hnodup as [Hnotin _].
    rewrite (Hout3 _ Hnotin). unfold m2. by rewrite lookup_insert_eq.
Qed.

(** *** The [install] run *)

(** C4 (amended): in an [install] run, a target whose [ver] succeeds is
    skipped with the "already installed" line and [install] is not called
    for it.  When [ver] fails, [checklatest] is called and then [install],
    once, with the pinned version when the pin of the target is not empty,
    and otherwise with the empty string when [checklatest] failed and with
    its trimmed output when it succeeded.  A failing [install] panics
    without the force flag; with it the warning is printed, the result is
    [Ok] and the loop goes on with the next target. *)
Theorem install_step (pinnedVersions : gmap string string) (fl : flags)
    (e : commandExecutor) (w w1 : World) (out : string) (err : option error)
    (t1 : list event) :
  let name := Name (commandSet_ e) in
  Exec e commandVer "" false w = (Ok (out, err), w1, t1) →
  (err = None →
     installOne pinnedVersions fl e w
     = (Ok tt, w1,
        EvPrintf "installing %q...\n\n" [VStr name] :: t1
          ++ [EvPrintf "Skipping %q: seems already installed at version %s\n"
                [VStr name; VStr (strings_TrimSpace out)]])
     ∧ ∀ ev, ev ∈ snd (installOne pinnedVersions fl e w) → is_install_of name ev = false)
  ∧ (err ≠ None →
     ∀ out2 err2 w2 t2,
       Exec e commandChecklatest "" false w1 = (Ok (out2, err2), w2, t2) →
       let latest := match err2 with None => strings_TrimSpace out2 | Some _ => "" end in
       let version :=
         if decide (index pinnedVersions name = "") then latest
         else index pinnedVersions name in
       ∀ out3 err3 w3 t3,
         Exec e commandInstall version (flag_v fl) w2 = (Ok (out3, err3), w3, t3) →
         ∃ r tmid tend,
           installOne pinnedVersions fl e w
           = (r, w3,
              EvPrintf "installing %q...\n\n" [VStr name] :: t1 ++ t2 ++ tmid ++ t3 ++ tend)
           ∧ tmid = match err2 with
                    | None => []
                    | Some e2 =>
                        [EvPrintf "\nfetching latest version failed with err %v\nNow trying with no version specified\n"
                           [VErr e2]]
                    end
           ∧ match err3 with
             | None =>
                 r = Ok tt ∧ tend = [EvPrintf "\n\ninstalling %q done!\n" [VStr name]]
             | Some e3 =>
                 if flag_f fl
                 then r = Ok tt
                      ∧ tend = [EvPrintf "warn: failed: %v\n"
                                  [VErr (Wrapf "install %q: %w" [name] e3)]]
                 else r = Panic (Wrapf "install %q: %w" [name] e3) ∧ tend = []
             end)
  ∧ (∀ w' t rest,
       installOne pinnedVersions fl e w = (Ok tt, w', t) →
       forEach (installOne pinnedVersions fl) (e :: rest) w
       = withTrace t (forEach (installOne pinnedVersions fl) rest) w').
Proof.
  intros name HVer. split; [|split].
  - intros ->.
    assert (Hrun : installOne pinnedVersions fl e w
                   = (Ok tt, w1,
                      EvPrintf "installing %q...\n\n" [VStr name] :: t1
                        ++ [EvPrintf "Skipping %q: seems already installed at version %s\n"
                              [VStr name; VStr (strings_TrimSpace out)]])).
    { unfold installOne. fold name. unfold bind, Printf, emit. by rewrite HVer. }
    split; [exact Hrun|]. rewrite Hrun. simpl.
    destruct (Exec_total e commandVer "" false w) as (o & er & w' & t' & HE & Hno).
    rewrite HE in HVer. injection HVer as _ _ _ <-.
    intros ev Hev.
    rewrite elem_of_cons, elem_of_app, elem_of_cons, list_elem_of_singleton in Hev.
    destruct Hev as [->|[[->|Hev]| ->]]; try reflexivity.
    apply Hno in Hev. by destruct ev.
  - intros Herr out2 err2 w2 t2 HCheck latest version out3 err3 w3 t3 HInst.
    destruct err as [e1|]; [clear Herr|done].
    assert (Hver : cmp_Or (index pinnedVersions name) latest = version).
    { unfold cmp_Or, version. by destruct (decide (index pinnedVersions name = "")). }
    unfold installOne. fold name. unfold bind at 1, Printf, emit.
    unfold bind at 1. rewrite HVer.
    unfold bind at 1. rewrite HCheck.
    destruct err2 as [e2|].
    + unfold bind at 1. unfold bind at 1. unfold ret at 1.
      unfold bind at 1. fold latest. rewrite Hver, HInst.
      destruct err3 as [e3|]; [destruct (flag_f fl)|]; unfold panic, emit; simpl;
        eexists _, _, _; (split; [|split; [reflexivity|split; reflexivity]]);
        rewrite ?app_nil_r, <- ?app_assoc; reflexivity.
    + unfold bind at 1. unfold ret at 1.
      unfold bind at 1. fold latest. rewrite Hver, HInst.
      destruct err3 as [e3|]; [destruct (flag_f fl)|]; unfold panic, emit; simpl;
        eexists _, _, _; (split; [|split; [reflexivity|split; reflexivity]]);
        rewrite ?app_nil_r, <- ?app_assoc; reflexivity.
  - intros w' t rest Hone. simpl forEach. unfold bind, withTrace. by rewrite Hone.
Qed.

(** *** The [update] run *)

Lemma gatherOne_ok (fl : flags) cur lat (e : commandExecutor) (w w1 w2 : World)
    o1 t1 o2 t2 :
  Exec e commandVer "" (flag_v fl) w = (Ok (o1, None), w1, t1) →
  Exec e commandChecklatest "" (flag_v fl) w1 = (Ok (o2, None), w2, t2) →
  gatherOne fl (cur, lat) e w
  = (Ok (<[Name (commandSet_ e) := strings_TrimSpace o1]> cur,
         <[Name (commandSet_ e) := strings_TrimSpace o2]> lat), w2, t1 ++ t2).
Proof.
  intros H1 H2. unfold gatherOne, bind, ret, panic. rewrite H1. simpl.
  rewrite H2. simpl. by rewrite !app_nil_r.
Qed.

Lemma gatherOne_ver_fails (fl : flags) maps (e : commandExecutor) (w w1 : World)
    o1 err t1 :
  Exec e commandVer "" (flag_v fl) w = (Ok (o1, Some err), w1, t1) →
  gatherOne fl maps e w
  = (Panic (Wrapf "ver %q: %w" [Name (commandSet_ e)] err), w1, t1).
Proof.
  intros H1. unfold gatherOne, bind, ret, panic. rewrite H1. simpl.
  by rewrite !app_nil_r.
Qed.

Lemma gatherOne_checklatest_fails (fl : flags) maps (e : commandExecutor)
    (w w1 w2 : World) o1 t1 o2 err t2 :
  Exec e commandVer "" (flag_v fl) w = (Ok (o1, None), w1, t1) →
  Exec e commandChecklatest "" (flag_v fl) w1 = (Ok (o2, Some err), w2, t2) →
  gatherOne fl maps e w
  = (Panic (Wrapf "checklatest %q: %w" [Name (commandSet_ e)] err), w2, t1 ++ t2).
Proof.
  intros H1 H2. unfold gatherOne, bind, ret, panic. rewrite H1. simpl.
  rewrite H2. simpl. by rewrite !app_nil_r.
Qed.

(** What one round of the gathering loop can do. *)
Lemma gatherOne_cases (fl : flags) cur lat (e : commandExecutor) (w : World) :
  ∃ r w' t,
    gatherOne fl (cur, lat) e w = (r, w', t)
    ∧ (∀ ev n, ev ∈ t → is_update_of n ev = false)
    ∧ ((∃ err, r = Panic err)
       ∨ ∃ o1 w1 t1 o2 t2,
           Exec e commandVer "" (flag_v fl) w = (Ok (o1, None), w1, t1)
           ∧ Exec e commandChecklatest "" (flag_v fl) w1 = (Ok (o2, None), w', t2)
           ∧ r = Ok (<[Name (commandSet_ e) := strings_TrimSpace o1]> cur,
                     <[Name (commandSet_ e) := strings_TrimSpace o2]> lat)).
Proof.
  destruct (Exec_total e commandVer "" (flag_v fl) w) as (o1 & e1 & w1 & t1 & H1 & Hn1).
  assert (Hu1 : ∀ ev n, ev ∈ EvExec (Name (commandSet_ e)) commandVer "" (flag_v fl) :: t1 →
                        is_update_of n ev = false).
  { intros ev n Hev. apply elem_of_cons in Hev as [->|Hev]; [done|].
    apply Hn1 in Hev. by destruct ev. }
  destruct e1 as [err|].
  { eexists _, _, _. split; [eapply gatherOne_ver_fails; exact H1|]. split; [exact Hu1|].
    left. by eexists. }
  destruct (Exec_total e commandChecklatest "" (flag_v fl) w1)
    as (o2 & e2 & w2 & t2 & H2 & Hn2).
  assert (Hu2 : ∀ ev n,
            ev ∈ (EvExec (Name (commandSet_ e)) commandVer "" (flag_v fl) :: t1)
                 ++ EvExec (Name (commandSet_ e)) commandChecklatest "" (flag_v fl) :: t2 →
            is_update_of n ev = false).
  { intros ev n Hev. apply elem_of_app in Hev as [Hev|Hev]; [by apply Hu1|].
    apply elem_of_cons in Hev as [->|Hev]; [done|].
    apply Hn2 in Hev. by destruct ev. }
  destruct e2 as [err|].
  { eexists _, _, _. split; [eapply gatherOne_checklatest_fails; [exact H1|exact H2]|]. split; [exact Hu2|].
    left. by eexists. }
  eexists _, _, _. split; [eapply gatherOne_ok; [exact H1|exact H2]|]. split; [exact Hu2|].
  right. by eexists o1, w1, _, o2, _.
Qed.

Lemma foldM_gather_trace (fl : flags) (execs : list commandExecutor) :
  ∀ maps w r w' t,
    foldM (gatherOne fl) execs maps w = (r, w', t) →
    (∀ ev n, ev ∈ t → is_update_of n ev = false)
    ∧ ∀ cur lat, r = Ok (cur, lat) →
        ∀ n, n ∉ names execs → cur !! n = fst maps !! n ∧ lat !! n = snd maps !! n.
Proof.
  induction execs as [|e execs IH]; intros [cur0 lat0] w r w' t Hfold.
  - injection Hfold as <- <- <-. split; [intros ev n Hev; by apply elem_of_nil in Hev|].
    intros cur lat [= <- <-] n _. done.
  - simpl foldM in Hfold.
    destruct (gatherOne_cases fl cur0 lat0 e w) as (r1 & w1 & t1 & Hone & Hu & Hcase).
    unfold bind in Hfold. rewrite Hone in Hfold.
    destruct Hcase as [[err ->]|(o1 & wa & ta & o2 & tb & _ & _ & ->)].
    + injection Hfold as <- <- <-. split; [exact Hu|]. intros cur lat Heq. discriminate Heq.
    + destruct (foldM (gatherOne fl) execs _ w1) as [[r2 w2] t2] eqn:Hrest.
      injection Hfold as <- <- <-.
      destruct (IH _ _ _ _ _ Hrest) as [Hu2 Hkeep].
      split.
      * intros ev n Hev. apply elem_of_app in Hev as [Hev|Hev]; [by apply Hu|by apply Hu2].
      * intros cur lat -> n Hn. unfold names in Hn. simpl in Hn.
        apply not_elem_of_cons in Hn as [Hne Hn].
        destruct (Hkeep cur lat eq_refl n Hn) as [Hc Hl]. simpl in Hc, Hl.
        rewrite lookup_insert_ne in Hc by done. rewrite lookup_insert_ne in Hl by done.
        done.
Qed.

(** The maps a successful gathering leaves: for every target the trimmed
    output of its [ver] and of its [checklatest]. *)
Lemma gatherAll_versions (fl : flags) (pre post : list commandExecutor)
    (e : commandExecutor) (w w' : World) cur lat t :
  NoDup (names (pre ++ e :: post)) →
  gatherAll fl (pre ++ e :: post) w = (Ok (cur, lat), w', t) →
  ∃ maps1 w1 t1 out1 w2 t2 out2 w3 t3,
    gatherAll fl pre w = (Ok maps1, w1, t1)
    ∧ Exec e commandVer "" (flag_v fl) w1 = (Ok (out1, None), w2, t2)
    ∧ Exec e commandChecklatest "" (flag_v fl) w2 = (Ok (out2, None), w3, t3)
    ∧ cur !! Name (commandSet_ e) = Some (strings_TrimSpace out1)
    ∧ lat !! Name (commandSet_ e) = Some (strings_TrimSpace out2).
Proof.
  intros Hnodup Hall. unfold gatherAll in *. rewrite foldM_app in Hall.
  unfold bind in Hall.
  destruct (foldM (gatherOne fl) pre (∅, ∅) w) as [[[[cur1 lat1]|err] w1] t1] eqn:Hpre;
    [|discriminate Hall].
  simpl foldM in Hall. unfold bind in Hall.
  destruct (gatherOne_cases fl cur1 lat1 e w1) as (r1 & w3 & t23 & Hone & _ & Hcase).
  rewrite Hone in Hall.
  destruct Hcase as [[err ->]|(o1 & w2 & t2 & o2 & t3 & H1 & H2 & ->)]; [discriminate Hall|].
  destruct (foldM (gatherOne fl) post _ w3) as [[r4 w4] t4] eqn:Hpost.
  injection Hall as -> <- <-.
  apply foldM_gather_trace in Hpost as [_ Hkeep].
  unfold names in Hnodup. rewrite map_app in Hnodup. simpl in Hnodup.
  apply NoDup_app in Hnodup as (_ & _ & Hnodup).
  apply NoDup_cons in Hnodup as [Hnotin _].
  destruct (Hkeep cur lat eq_refl _ Hnotin) as [Hc Hl]. simpl in Hc, Hl.
  rewrite lookup_insert_eq in Hc. rewrite lookup_insert_eq in Hl.
  by eexists (cur1, lat1), w1, t1, o1, w2, t2, o2, w3, t3.
Qed.

Lemma planOne_run (pinnedVersions cur lat : gmap string string)
    (ups : list targetedExecutor) (e : commandExecutor) (w : World) :
  let name := Name (commandSet_ e) in
  let target := effectiveVersion pinnedVersions lat name in
  planOne pinnedVersions cur lat ups e w
  = (Ok (if decide (index cur name = target) then ups
         else ups ++ [{| tgt := target; executor := e |}]),
     w,
     EvPrintf "%q: %s -> %s" [VStr name; VStr (index cur name); VStr target]
       :: (if decide (index pinnedVersions name ≠ "") then [EvPrintf "(pinned)" []] else [])
       ++ [if decide (index cur name = target)
           then EvPrintf ": no update\n" [] else EvPrintf "\n" []]).
Proof.
  intros name target. unfold planOne. fold name. fold target.
  unfold bind, Printf, emit, ret.
  destruct (decide (index pinnedVersions name ≠ ""));
    destruct (decide (index cur name = target)); reflexivity.
Qed.

Lemma foldM_plan (pinnedVersions cur lat : gmap string string)
    (execs : list commandExecutor) :
  ∀ ups w,
  ∃ ups' t,
    foldM (planOne pinnedVersions cur lat) execs ups w = (Ok (ups ++ ups'), w, t)
    ∧ (∀ ev, ev ∈ t → is_exec ev = false)
    ∧ (∀ u, u ∈ ups' →
         executor u ∈ execs
         ∧ tgt u = effectiveVersion pinnedVersions lat (Name (commandSet_ (executor u)))
         ∧ index cur (Name (commandSet_ (executor u))) ≠ tgt u)
    ∧ (∀ e, e ∈ execs →
         let name := Name (commandSet_ e) in
         let target := effectiveVersion pinnedVersions lat name in
         index cur name = target →
         ∃ ta tb,
           t = ta ++ EvPrintf "%q: %s -> %s" [VStr name; VStr (index cur name); VStr target]
                  :: (if decide (index pinnedVersions name ≠ "")
                      then [EvPrintf "(pinned)" []] else [])
                  ++ EvPrintf ": no update\n" [] :: tb).
Proof.
  induction execs as [|e execs IH]; intros ups w.
  - exists [], []. rewrite app_nil_r. split; [done|].
    split; [intros ev Hev; by apply elem_of_nil in Hev|].
    split; [intros u Hu; by apply elem_of_nil in Hu|].
    intros e He. by apply elem_of_nil in He.
  - simpl foldM. unfold bind. rewrite planOne_run.
    set (name := Name (commandSet_ e)).
    set (target := effectiveVersion pinnedVersions lat name).
    set (line := EvPrintf "%q: %s -> %s" [VStr name; VStr (index cur name); VStr target]).
    set (pin := if decide (index pinnedVersions name ≠ "") then [EvPrintf "(pinned)" []] else []).
    assert (Hpin : ∀ ev, ev ∈ pin → is_exec ev = false).
    { intros ev Hev. unfold pin in Hev. destruct (decide _).
      - by apply list_elem_of_singleton in Hev as ->.
      - by apply elem_of_nil in Hev. }
    destruct (decide (index cur name = target)) as [Hsame|Hdiff].
    + destruct (IH ups w) as (ups' & t & -> & Hne & Hups & Hlog).
      exists ups', (line :: pin ++ [EvPrintf ": no update\n" []] ++ t).
      split; [simpl; by rewrite <- app_assoc|].
      split; [|split].
      * intros ev Hev.
        rewrite elem_of_cons, !elem_of_app, list_elem_of_singleton in Hev.
        destruct Hev as [->|[Hev|[->|Hev]]]; auto.
      * intros u Hu. destruct (Hups u Hu) as (Hin & Ht & Hc).
        split; [by right|done].
      * intros e' He' Heq. apply elem_of_cons in He' as [->|He'].
        -- exists [], t. reflexivity.
        -- destruct (Hlog e' He' Heq) as (ta & tb & ->).
           exists (line :: pin ++ [EvPrintf ": no update\n" []] ++ ta), tb.
           simpl. by rewrite <- !app_assoc.
    + destruct (IH (ups ++ [{| tgt := target; executor := e |}]) w)
        as (ups' & t & -> & Hne & Hups & Hlog).
      exists ({| tgt := target; executor := e |} :: ups'), (line :: pin ++ [EvPrintf "\n" []] ++ t).
      split; [simpl; by rewrite <- !app_assoc|].
      split; [|split].
      * intros ev Hev.
        rewrite elem_of_cons, !elem_of_app, list_elem_of_singleton in Hev.
        destruct Hev as [->|[Hev|[->|Hev]]]; auto.
      * intros u Hu. apply elem_of_cons in Hu as [->|Hu].
        -- simpl. split; [by left|done].
        -- destruct (Hups u Hu) as (Hin & Ht & Hc). split; [by right|done].
      * intros e' He' Heq. apply elem_of_cons in He' as [->|He'].
        -- done.
        -- destruct (Hlog e' He' Heq) as (ta & tb & ->).
           exists (line :: pin ++ [EvPrintf "\n" []] ++ ta), tb.
           simpl. by rewrite <- !app_assoc.
Qed.

Lemma updateOne_run (fl : flags) (u : targetedExecutor) (w : World) :
  let name := Name (commandSet_ (executor u)) in
  ∃ out err w' t,
    Exec (executor u) commandUpdate (tgt u) (flag_v fl) w
    = (Ok (out, err), w', EvExec name commandUpdate (tgt u) (flag_v fl) :: t)
    ∧ (∀ ev, ev ∈ t → is_exec ev = false)
    ∧ updateOne fl u w
      = (match err with
         | None => Ok tt
         | Some err => Panic (Wrapf "updating %q: %w" [name] err)
         end,
         w',
         EvPrintf "updating %q...\n\n" [VStr name]
           :: EvExec name commandUpdate (tgt u) (flag_v fl) :: t
           ++ match err with
              | None => [EvPrintf "\n\nupdated %q!\n" [VStr name]]
              | Some _ => []
              end).
Proof.
  intros name.
  destruct (Exec_total (executor u) commandUpdate (tgt u) (flag_v fl) w)
    as (out & err & w' & t & HE & Hn).
  exists out, err, w', t. split; [exact HE|]. split; [exact Hn|].
  unfold updateOne. fold name. unfold bind, Printf, emit, panic. rewrite HE.
  destruct err; simpl; by rewrite ?app_nil_r.
Qed.

Lemma forEach_update_trace (fl : flags) (ups : list targetedExecutor) :
  ∀ w r w' t,
    forEach (updateOne fl) ups w = (r, w', t) →
    ∀ ev n, ev ∈ t → is_update_of n ev = true →
      ∃ u, u ∈ ups ∧ Name (commandSet_ (executor u)) = n
           ∧ ev = EvExec n commandUpdate (tgt u) (flag_v fl).
Proof.
  induction ups as [|u ups IH]; intros w r w' t Hrun ev n Hev Hup.
  - injection Hrun as <- <- <-. by apply elem_of_nil in Hev.
  - simpl forEach in Hrun. unfold bind in Hrun.
    destruct (updateOne_run fl u w) as (out & err & w1 & t1 & _ & Hn & Hone).
    rewrite Hone in Hrun.
    assert (Hhere : ∀ tl, ev ∈ EvPrintf "updating %q...\n\n" [VStr (Name (commandSet_ (executor u)))]
                     :: EvExec (Name (commandSet_ (executor u))) commandUpdate (tgt u) (flag_v fl)
                     :: t1 ++ tl →
              (∀ x, x ∈ tl → is_exec x = false) →
              ∃ u0, u0 ∈ u :: ups ∧ Name (commandSet_ (executor u0)) = n
                    ∧ ev = EvExec n commandUpdate (tgt u0) (flag_v fl)).
    { intros tl Hin Htl. rewrite !elem_of_cons, elem_of_app in Hin.
      destruct Hin as [->|[->|[Hin|Hin]]].
      - discriminate Hup.
      - simpl in Hup. apply bool_decide_eq_true in Hup.
        exists u. split; [by left|]. split; [done|]. by rewrite Hup.
      - apply Hn in Hin. destruct ev; discriminate.
      - apply Htl in Hin. destruct ev; discriminate. }
    destruct err as [err|].
    + injection Hrun as <- <- <-. apply (Hhere [] Hev).
      intros x Hx. by apply elem_of_nil in Hx.
    + destruct (forEach (updateOne fl) ups w1) as [[r2 w2] t2] eqn:Hrest.
      injection Hrun as <- <- <-.
      simpl in Hev. rewrite !elem_of_cons, !elem_of_app in Hev.
      assert (Hsplit : ev ∈ EvPrintf "updating %q...\n\n"
                               [VStr (Name (commandSet_ (executor u)))]
                         :: EvExec (Name (commandSet_ (executor u))) commandUpdate
                              (tgt u) (flag_v fl)
                         :: t1 ++ [EvPrintf "\n\nupdated %q!\n"
                                     [VStr (Name (commandSet_ (executor u)))]]
                       ∨ ev ∈ t2).
      { rewrite !elem_of_cons, elem_of_app. tauto. }
      destruct Hsplit as [Hev'|Hev'].
      * apply (Hhere _ Hev'). intros x Hx. by apply list_elem_of_singleton in Hx as ->.
      * destruct (IH _ _ _ _ Hrest ev n Hev' Hup) as (u0 & Hu0 & Hrest').
        exists u0. split; [by right|done].
Qed.

Lemma updateAll_run (pinnedVersions : gmap string string) (fl : flags)
    (execs : list commandExecutor) (w : World) :
  match gatherAll fl execs w with
  | (Panic err, w1, t1) => updateAll pinnedVersions fl execs w = (Panic err, w1, t1)
  | (Ok (cur, lat), w1, t1) =>
      ∃ ups t2,
        planAll pinnedVersions cur lat execs w1 = (Ok ups, w1, t2)
        ∧ updateAll pinnedVersions fl execs w
          = withTrace (t1 ++ t2) (forEach (updateOne fl) ups) w1
  end.
Proof.
  unfold updateAll, bind.
  destruct (gatherAll fl execs w) as [[[[cur lat]|err] w1] t1]; [|reflexivity].
  simpl fst. simpl snd.
  destruct (foldM_plan pinnedVersions cur lat execs [] w1) as (ups & t2 & Hplan & _).
  unfold planAll. rewrite Hplan. simpl app.
  exists ups, t2. split; [reflexivity|].
  unfold withTrace.
  destruct (forEach (updateOne fl) ups w1) as [[r w3] t3]. by rewrite app_assoc.
Qed.

(** C3: in an [update] run a target whose current version equals the
    version the update aims at gets the ": no update" line after its
    version line, and [Exec] is never called with [update] for it.  The
    current version is the trimmed output of the target's [ver].  When the
    gathering panics no [update] is called at all. *)
Theorem update_skips_current (pinnedVersions : gmap string string) (fl : flags)
    (execs : list commandExecutor) (w : World) (e : commandExecutor) :
  e ∈ execs →
  let name := Name (commandSet_ e) in
  let trace := snd (updateAll pinnedVersions fl execs w) in
  match gatherAll fl execs w with
  | (Panic _, _, _) => ∀ ev n, ev ∈ trace → is_update_of n ev = false
  | (Ok (cur, lat), _, _) =>
      let target := effectiveVersion pinnedVersions lat name in
      index cur name = target →
      (∀ ev, ev ∈ trace → is_update_of name ev = false)
      ∧ (∃ ta tb,
           trace = ta ++ EvPrintf "%q: %s -> %s"
                           [VStr name; VStr (index cur name); VStr target]
                      :: (if decide (index pinnedVersions name ≠ "")
                          then [EvPrintf "(pinned)" []] else [])
                      ++ EvPrintf ": no update\n" [] :: tb)
      ∧ (NoDup (names execs) →
         ∃ pre post maps0 w0 t0 out w2 t2,
           execs = pre ++ e :: post
           ∧ gatherAll fl pre w = (Ok maps0, w0, t0)
           ∧ Exec e commandVer "" (flag_v fl) w0 = (Ok (out, None), w2, t2)
           ∧ index cur name = strings_TrimSpace out)
  end.
Proof.
  intros He name trace. subst trace.
  pose proof (updateAll_run pinnedVersions fl execs w) as Hrun.
  destruct (gatherAll fl execs w) as [[[[cur lat]|err] w1] t1] eqn:Hgather.
  - intros target Hsame.
    destruct Hrun as (ups & t2 & Hplan & ->).
    pose proof (foldM_gather_trace fl execs _ _ _ _ _ Hgather) as [Hnoup _].
    destruct (foldM_plan pinnedVersions cur lat execs [] w1)
      as (ups' & t2' & Hplan' & Hprints & Hups & Hlog).
    unfold planAll in Hplan. rewrite Hplan' in Hplan. simpl in Hplan.
    injection Hplan as <- <-.
    unfold withTrace.
    destruct (forEach (updateOne fl) ups' w1) as [[r w3] t3] eqn:Hexec. simpl snd.
    split; [|split].
    + intros ev Hev. rewrite !elem_of_app in Hev.
      destruct Hev as [[Hev|Hev]|Hev].
      * by apply Hnoup.
      * apply Hprints in Hev. by destruct ev.
      * destruct (is_update_of name ev) eqn:Hup; [|reflexivity].
        destruct (forEach_update_trace fl ups' _ _ _ _ Hexec ev name Hev Hup)
          as (u & Hu & Hname & _).
        destruct (Hups u Hu) as (_ & Htgt & Hdiff).
        rewrite Hname in Htgt, Hdiff. fold target in Htgt. congruence.
    + destruct (Hlog e He Hsame) as (ta & tb & ->).
      exists (t1 ++ ta), (tb ++ t3). fold name. fold target.
      rewrite <- !app_assoc. simpl. by rewrite <- !app_assoc.
    + intros Hnodup.
      destruct (list_elem_of_split _ _ He) as (pre & post & ->).
      destruct (gatherAll_versions fl pre post e w w1 cur lat t1 Hnodup Hgather)
        as (maps0 & w0 & t0 & out1 & w2 & t2 & _ & _ & _ & Hpre & HVer & _ & Hcur & _).
      exists pre, post, maps0, w0, t0, out1, w2, t2.
      split; [done|]. split; [done|]. split; [done|].
      unfold index. fold name in Hcur. by rewrite Hcur.
  - rewrite Hrun. simpl snd. intros ev n Hev.
    by apply (foldM_gather_trace fl execs _ _ _ _ _ Hgather).
Qed.

(** C2 (amended): in an [update] run the version the decision for a
    target uses is the pinned version when the pin mapping has an entry
    for the name that is not the empty string; with no entry, or with an
    empty one, it is the trimmed output of the target's [checklatest]. *)
Theorem effective_version_of_update (pinnedVersions : gmap string string) (fl : flags)
    (pre post : list commandExecutor) (e : commandExecutor) (w w' : World)
    (cur lat : gmap string string) (t : list event) :
  NoDup (names (pre ++ e :: post)) →
  gatherAll fl (pre ++ e :: post) w = (Ok (cur, lat), w', t) →
  let name := Name (commandSet_ e) in
  let target := effectiveVersion pinnedVersions lat name in
  (∀ v, pinnedVersions !! name = Some v → v ≠ "" → target = v)
  ∧ (pinnedVersions !! name = None ∨ pinnedVersions !! name = Some "" →
     ∃ maps0 w0 t0 out1 w1 t1 out w2 t2,
       gatherAll fl pre w = (Ok maps0, w0, t0)
       ∧ Exec e commandVer "" (flag_v fl) w0 = (Ok (out1, None), w1, t1)
       ∧ Exec e commandChecklatest "" (flag_v fl) w1 = (Ok (out, None), w2, t2)
       ∧ target = strings_TrimSpace out)
  ∧ (∀ ups w0,
       planOne pinnedVersions cur lat ups e w0
       = (Ok (if decide (index cur name = target) then ups
              else ups ++ [{| tgt := target; executor := e |}]),
          w0,
          EvPrintf "%q: %s -> %s" [VStr name; VStr (index cur name); VStr target]
            :: (if decide (index pinnedVersions name ≠ "")
                then [EvPrintf "(pinned)" []] else [])
            ++ [if decide (index cur name = target)
                then EvPrintf ": no update\n" [] else EvPrintf "\n" []])).
Proof.
  intros Hnodup Hgather name target. split; [|split].
  - intros v Hv Hne. unfold target, effectiveVersion, cmp_Or, index.
    rewrite Hv. simpl. by rewrite decide_False.
  - intros Hpin.
    destruct (gatherAll_versions fl pre post e w w' cur lat t Hnodup Hgather)
      as (maps0 & w0 & t0 & out1 & w1 & t1 & out & w2 & t2 & Hpre & HVer & HCheck & _ & Hlat).
    exists maps0, w0, t0, out1, w1, t1, out, w2, t2.
    split; [done|]. split; [done|]. split; [done|].
    unfold target, effectiveVersion, cmp_Or, index. fold name in Hlat. rewrite Hlat.
    by destruct Hpin as [-> | ->].
  - intros ups w0. apply planOne_run.
Qed.

(** C5: an [update] run does not look at the force flag, and the first
    command that fails ends it with a panic: a [ver] or a [checklatest] of
    the gathering, or an [update] of the execution.  The run stops in the
    world the failed child left, which holds the updates made before it;
    no event follows the failed run. *)
Theorem update_failures_are_fatal (pinnedVersions : gmap string string) (fl : flags)
    (execs : list commandExecutor) (w : World) :
  (∀ fl', flag_v fl' = flag_v fl →
     dispatch commandUpdate pinnedVersions fl' execs w
     = dispatch commandUpdate pinnedVersions fl execs w)
  ∧ (∀ pre e post maps0 w0 t0 out err w1 t1,
       execs = pre ++ e :: post →
       gatherAll fl pre w = (Ok maps0, w0, t0) →
       Exec e commandVer "" (flag_v fl) w0 = (Ok (out, Some err), w1, t1) →
       dispatch commandUpdate pinnedVersions fl execs w
       = (Panic (Wrapf "ver %q: %w" [Name (commandSet_ e)] err), w1, t0 ++ t1))
  ∧ (∀ pre e post maps0 w0 t0 out w1 t1 out2 err w2 t2,
       execs = pre ++ e :: post →
       gatherAll fl pre w = (Ok maps0, w0, t0) →
       Exec e commandVer "" (flag_v fl) w0 = (Ok (out, None), w1, t1) →
       Exec e commandChecklatest "" (flag_v fl) w1 = (Ok (out2, Some err), w2, t2) →
       dispatch commandUpdate pinnedVersions fl execs w
       = (Panic (Wrapf "checklatest %q: %w" [Name (commandSet_ e)] err), w2,
          t0 ++ t1 ++ t2))
  ∧ (∀ cur lat w1 t1 pre u post t2 w2 t3 out err w3 t4,
       gatherAll fl execs w = (Ok (cur, lat), w1, t1) →
       planAll pinnedVersions cur lat execs w1 = (Ok (pre ++ u :: post), w1, t2) →
       forEach (updateOne fl) pre w1 = (Ok tt, w2, t3) →
       Exec (executor u) commandUpdate (tgt u) (flag_v fl) w2
       = (Ok (out, Some err), w3, t4) →
       dispatch commandUpdate pinnedVersions fl execs w
       = (Panic (Wrapf "updating %q: %w" [Name (commandSet_ (executor u))] err), w3,
          t1 ++ t2 ++ t3
            ++ EvPrintf "updating %q...\n\n" [VStr (Name (commandSet_ (executor u)))]
            :: t4)).
Proof.
  simpl dispatch. split; [|split; [|split]].
  - intros [v' f'] Hv. destruct fl as [v f]. simpl in Hv. subst v'. reflexivity.
  - intros pre e post [cur0 lat0] w0 t0 out err w1 t1 -> Hpre HVer.
    pose proof (updateAll_run pinnedVersions fl (pre ++ e :: post) w) as Hrun.
    unfold gatherAll in Hrun, Hpre. rewrite foldM_app in Hrun.
    unfold bind in Hrun. rewrite Hpre in Hrun. simpl foldM in Hrun.
    unfold bind in Hrun.
    rewrite (gatherOne_ver_fails fl _ e w0 w1 out err t1 HVer) in Hrun.
    exact Hrun.
  - intros pre e post [cur0 lat0] w0 t0 out w1 t1 out2 err w2 t2 -> Hpre HVer HCheck.
    pose proof (updateAll_run pinnedVersions fl (pre ++ e :: post) w) as Hrun.
    unfold gatherAll in Hrun, Hpre. rewrite foldM_app in Hrun.
    unfold bind in Hrun. rewrite Hpre in Hrun. simpl foldM in Hrun.
    unfold bind in Hrun.
    rewrite (gatherOne_checklatest_fails fl _ e w0 w1 w2 out t1 out2 err t2 HVer HCheck)
      in Hrun.
    exact Hrun.
  - intros cur lat w1 t1 pre u post t2 w2 t3 out err w3 t4 Hgather Hplan Hpre HUp.
    pose proof (updateAll_run pinnedVersions fl execs w) as Hrun.
    rewrite Hgather in Hrun. destruct Hrun as (ups & t2' & Hplan' & ->).
    rewrite Hplan in Hplan'. injection Hplan' as <- <-.
    unfold withTrace. rewrite forEach_app. unfold bind. rewrite Hpre.
    simpl forEach. unfold bind.
    destruct (updateOne_run fl u w2) as (out' & err' & w3' & t4' & HE & _ & Hone).
    rewrite HUp in HE. injection HE as <- <- <- ->.
    rewrite Hone. by rewrite app_nil_r, <- !app_assoc.
Qed.

Lemma bind_ok_nil {A B : Type} (m : M A) (k : A → M B) w a w1 :
  m w = (Ok a, w1, []) → bind m k w = k a w1.
Proof. unfold bind. intros ->. by destruct (k a w1) as [[r w2] t2]. Qed.

(** *** Pinned versions *)

Lemma checkPinnedEntries_untrimmed (entries : list (string * string)) kv :
  kv ∈ entries → untrimmed kv → is_Some (checkPinnedEntries entries).
Proof.
  induction entries as [|kv' entries IH]; intros Hin Hbad; [by apply elem_of_nil in Hin|].
  simpl. destruct (decide (untrimmed kv')); [by eexists|].
  apply elem_of_cons in Hin as [->|Hin]; [done|]. by apply IH.
Qed.

Lemma checkPinnedEntries_trimmed (entries : list (string * string)) :
  (∀ kv, kv ∈ entries → ¬ untrimmed kv) → checkPinnedEntries entries = None.
Proof.
  induction entries as [|kv' entries IH]; intros Hall; [reflexivity|].
  simpl. rewrite decide_False by (apply Hall; left).
  apply IH. intros kv Hin. apply Hall. by right.
Qed.

(** The outcome of the check does not depend on the order in which the
    entries are visited. *)
Lemma checkPinnedEntries_order (l1 l2 : list (string * string)) :
  l1 ≡ₚ l2 → is_Some (checkPinnedEntries l1) ↔ is_Some (checkPinnedEntries l2).
Proof.
  assert (Hone : ∀ l l', l ≡ₚ l' → is_Some (checkPinnedEntries l) →
                         is_Some (checkPinnedEntries l')).
  { intros l l' Hp Hsome.
    destruct (decide (Exists untrimmed l)) as [Hex|Hnex].
    - apply Exists_exists in Hex as (kv & Hin & Hbad).
      apply (checkPinnedEntries_untrimmed l' kv); [|done].
      by rewrite <- Hp.
    - rewrite checkPinnedEntries_trimmed in Hsome; [by destruct Hsome|].
      intros kv Hin Hbad. apply Hnex, Exists_exists. exists kv.
      by split. }
  intros Hp. split; apply Hone; [done|by symmetry].
Qed.

(** C8: a pin mapping with a key or a value that differs from its trimmed
    form ends the run with a panic before anything else happens (no event,
    the world untouched); a missing pin file gives the empty mapping and
    the run goes on; any other error of opening or decoding the file is a
    panic with that error.  A mapping that is trimmed throughout passes. *)
Theorem pinned_versions_are_checked (cfgDir target : string) (cmd : command)
    (fl : flags) (w : World) :
  let path := filepath_Join [cfgDir; pinnedVersionsFileName] in
  let rest := λ pinnedVersions,
    bind (if decide (target ≠ "") then enumerateOne cfgDir target
          else enumerateAll cfgDir)
      (λ sets, dispatch cmd pinnedVersions fl (map (newCommandExecutor cfgDir) sets)) in
  (∀ m k v,
     readPinFile w path = ReadOk m →
     m !! k = Some v →
     k ≠ strings_TrimSpace k ∨ v ≠ strings_TrimSpace v →
     ∃ err, main cfgDir target cmd fl w = (Panic err, w, []))
  ∧ (∀ err,
       readPinFile w path = ReadNotExist err →
       loadPinnedVersions cfgDir w = (Ok ∅, w, [])
       ∧ main cfgDir target cmd fl w = rest ∅ w)
  ∧ (∀ err,
       readPinFile w path = ReadOpenError err ∨ readPinFile w path = ReadDecodeError err →
       main cfgDir target cmd fl w = (Panic err, w, []))
  ∧ (∀ m,
       readPinFile w path = ReadOk m →
       (∀ k v, m !! k = Some v → k = strings_TrimSpace k ∧ v = strings_TrimSpace v) →
       main cfgDir target cmd fl w = rest m w).
Proof.
  intros path rest.
  assert (Hload : loadPinnedVersions cfgDir w
                  = match readPinFile w path with
                    | ReadNotExist _ => (Ok ∅, w, [])
                    | ReadOpenError err | ReadDecodeError err => (Panic err, w, [])
                    | ReadOk m => (Ok m, w, [])
                    end).
  { unfold loadPinnedVersions, bind, ReadPinFile. fold path.
    by destruct (readPinFile w path). }
  assert (Hvalid : ∀ m, validatePinnedVersions m w
                        = match checkPinnedEntries (map_to_list m) with
                          | Some err => (Panic err, w, [])
                          | None => (Ok tt, w, [])
                          end).
  { intros m. unfold validatePinnedVersions. by destruct (checkPinnedEntries _). }
  unfold main. split; [|split; [|split]].
  - intros m k v Hread Hkv Hbad. rewrite Hread in Hload.
    rewrite (bind_ok_nil _ _ _ _ _ Hload).
    destruct (checkPinnedEntries_untrimmed (map_to_list m) (k, v)) as [err Herr];
      [by apply elem_of_map_to_list|exact Hbad|].
    specialize (Hvalid m). rewrite Herr in Hvalid.
    exists err. by apply bind_panic.
  - intros err Hread. rewrite Hread in Hload. split; [exact Hload|].
    rewrite (bind_ok_nil _ _ _ _ _ Hload).
    specialize (Hvalid ∅). rewrite map_to_list_empty in Hvalid.
    by rewrite (bind_ok_nil _ _ _ _ _ Hvalid).
  - intros err Hread. apply bind_panic. rewrite Hload. by destruct Hread as [-> | ->].
  - intros m Hread Htrim. rewrite Hread in Hload.
    rewrite (bind_ok_nil _ _ _ _ _ Hload).
    specialize (Hvalid m). rewrite checkPinnedEntries_trimmed in Hvalid.
    + by rewrite (bind_ok_nil _ _ _ _ _ Hvalid).
    + intros [k v] Hin [Hk|Hv]; apply elem_of_map_to_list in Hin;
        destruct (Htrim k v Hin) as [Hk' Hv']; simpl in *; congruence.
Qed.

(** *** Enumeration *)

Lemma enumerateAll_sorted (cfgDir : string) (w w' : World)
    (out : list namedCommandSet) (t : list event) :
  enumerateAll cfgDir w = (Ok out, w', t) → ∃ sets, out = sortAndCompact sets.
Proof.
  unfold enumerateAll, bind, ReadDir. destruct (readDir w cfgDir) as [err|infos].
  - intros [=].
  - destruct (mapM _ _ w) as [[[sets|err] w1] t1]; intros [=]. by exists sets.
Qed.

(** Sorting and compaction: the result is strictly ascending by name, has
    the names and only entries of the input, and keeps an entry whose name
    is shared by zero entries only. *)
Lemma sortAndCompact_facts (sets : list namedCommandSet) :
  SortFunc_contract →
  let out := sortAndCompact sets in
  StronglySorted nameBefore out
  ∧ NoDup (map Name out)
  ∧ (∀ x, x ∈ out → x ∈ sets)
  ∧ (∀ n, n ∈ map Name out ↔ n ∈ map Name sets)
  ∧ (∀ file,
       file ∈ sets →
       (∀ other, other ∈ sets → Name other = Name file →
                 other = file ∨ IsZero (Set_ other) = true) →
       file ∈ out)
  ∧ (∀ cfgDir w w' l t,
       enumerateAll cfgDir w = (Ok l, w', t) →
       StronglySorted nameBefore l ∧ NoDup (map Name l)).
Proof.
  intros Hcontract.
  assert (Hweak : strictWeak compareSets).
  { split; [exact compareSets_asym|exact compareSets_cotrans]. }
  assert (Hsorts : ∀ l, StronglySorted (notAfter compareSets) (slices_SortFunc l compareSets))
    by (intros l; apply (Hcontract compareSets Hweak l)).
  assert (Hperm : ∀ l, Permutation l (slices_SortFunc l compareSets))
    by (intros l; apply (Hcontract compareSets Hweak l)).
  assert (Hgen : ∀ l,
    let out := sortAndCompact l in
    StronglySorted nameBefore out
    ∧ NoDup (map Name out)
    ∧ (∀ x, x ∈ out → x ∈ l)
    ∧ (∀ x, x ∈ l → ∃ y, y ∈ out ∧ Name y = Name x
                         ∧ (IsZero (Set_ y) = true → IsZero (Set_ x) = true))).
  { intros l out. subst out. unfold sortAndCompact.
    destruct (CompactFunc_sorted _ (Hsorts l)) as (Hso & Hin & Hcover).
    split; [exact Hso|]. split; [by apply StronglySorted_nameBefore_NoDup|].
    split.
    - intros x Hx. rewrite (Hperm l). by apply Hin.
    - intros x Hx. apply Hcover. by rewrite <- (Hperm l). }
  intros out. destruct (Hgen sets) as (Hso & Hnd & Hin & Hcover). fold out in Hso, Hnd, Hin, Hcover.
  split; [exact Hso|]. split; [exact Hnd|]. split; [exact Hin|].
  split; [|split].
  - intros n. rewrite !list_elem_of_In, !in_map_iff. split.
    + intros (x & <- & Hx). exists x. split; [done|].
      by apply list_elem_of_In, Hin, list_elem_of_In.
    + intros (x & <- & Hx). apply list_elem_of_In, Hcover in Hx as (y & Hy & Hn & _).
      exists y. split; [done|]. by apply list_elem_of_In.
  - intros file Hfile Hothers.
    destruct (Hcover file Hfile) as (y & Hy & Hn & Hz).
    destruct (Hothers y (Hin y Hy) Hn) as [->|Hzero]; [done|].
    assert (y = file) as ->; [|done].
    destruct y as [ny sy], file as [nf sf]. simpl in *.
    rewrite (IsZero_eq sy Hzero), (IsZero_eq sf (Hz Hzero)). by subst.
  - intros cfgDir w w' l t Hrun.
    apply enumerateAll_sorted in Hrun as [l0 ->].
    destruct (Hgen l0) as (Hso' & Hnd' & _). by split.
Qed.

(** Reading the entries of the directory changes nothing and prints
    nothing; every set read comes from an entry of the listing. *)
Lemma mapM_loadEntry (cfgDir : string) (infos : list FileInfo) :
  ∀ w sets w' t,
    mapM (loadEntry cfgDir) infos w = (Ok sets, w', t) →
    w' = w ∧ t = []
    ∧ (∀ fi, fi ∈ infos → ∃ s, s ∈ sets ∧ loadEntry cfgDir fi w = (Ok s, w, []))
    ∧ (∀ s, s ∈ sets → ∃ fi, fi ∈ infos ∧ loadEntry cfgDir fi w = (Ok s, w, [])).
Proof.
  assert (Hone : ∀ fi w, ∃ r, loadEntry cfgDir fi w = (r, w, [])).
  { intros fi w. unfold loadEntry, bind, ReadSetFile, ret, panic.
    destruct (fi_IsRegular fi && HasSuffix (fi_Name fi) ".json").
    - destruct (readSetFile w _); by eexists.
    - destruct (fi_IsDir fi); by eexists. }
  induction infos as [|fi infos IH]; intros w sets w' t Hrun.
  - injection Hrun as <- <- <-. do 2 (split; [done|]).
    split; intros x Hx; by apply elem_of_nil in Hx.
  - simpl mapM in Hrun. unfold bind in Hrun.
    destruct (Hone fi w) as [r Hfi]. rewrite Hfi in Hrun.
    destruct r as [s|err]; [|discriminate Hrun].
    destruct (mapM (loadEntry cfgDir) infos w) as [[[rest|err] w1] t1] eqn:Hrest;
      [|discriminate Hrun].
    destruct (IH _ _ _ _ Hrest) as (-> & -> & Hfwd & Hback).
    unfold ret in Hrun. injection Hrun as <- <- <-.
    do 2 (split; [done|]). split.
    + intros fi' Hfi'. apply elem_of_cons in Hfi' as [->|Hfi'].
      * exists s. split; [by left|done].
      * destruct (Hfwd fi' Hfi') as (s' & Hs' & Hload). exists s'. split; [by right|done].
    + intros s' Hs'. apply elem_of_cons in Hs' as [->|Hs'].
      * exists fi. split; [by left|done].
      * destruct (Hback s' Hs') as (fi' & Hfi' & Hload). exists fi'. split; [by right|done].
Qed.

(** The entry [loadEntry] makes: from a regular [.json] file the set read
    from it under the name without the suffix, and a zero set otherwise. *)
Lemma loadEntry_cases (cfgDir : string) (fi : FileInfo) (w : World) (s : namedCommandSet) :
  loadEntry cfgDir fi w = (Ok s, w, []) →
  (fi_IsRegular fi = true ∧ HasSuffix (fi_Name fi) ".json" = true
   ∧ Name s = TrimSuffix (fi_Name fi) ".json"
   ∧ readSetFile w (filepath_Join [cfgDir; fi_Name fi]) = ReadOk (Set_ s))
  ∨ IsZero (Set_ s) = true.
Proof.
  unfold loadEntry, bind, ReadSetFile, ret, panic.
  destruct (fi_IsRegular fi && HasSuffix (fi_Name fi) ".json") eqn:Hjson.
  - apply andb_true_iff in Hjson as [Hreg Hsuf].
    destruct (readSetFile w _) eqn:Hread; intros [=]. subst s. left. done.
  - destruct (fi_IsDir fi); intros [=]; subst s; by right.
Qed.

(** The entry read from a command set file of the listing is in the
    enumerated list: an entry made from a directory of the same name never
    takes its place. *)
Lemma enumerateAll_keeps_file_entry (cfgDir : string) (w w' : World)
    (out : list namedCommandSet) (t : list event) (infos : list FileInfo)
    (fi : FileInfo) (set : commandSet) :
  SortFunc_contract →
  enumerateAll cfgDir w = (Ok out, w', t) →
  readDir w cfgDir = inr infos →
  fi ∈ infos →
  fi_IsRegular fi = true →
  HasSuffix (fi_Name fi) ".json" = true →
  fi_Name fi ≠ pinnedVersionsFileName →
  readSetFile w (filepath_Join [cfgDir; fi_Name fi]) = ReadOk set →
  {| Name := TrimSuffix (fi_Name fi) ".json"; Set_ := set |} ∈ out.
Proof.
  intros Hcontract Hrun Hdir Hfi Hreg Hsuf Hpin Hread.
  unfold enumerateAll, bind, ReadDir in Hrun. rewrite Hdir in Hrun.
  destruct (mapM _ _ w) as [[[sets|err] w1] t1] eqn:Hmap; [|discriminate Hrun].
  unfold ret in Hrun. injection Hrun as <- <- <-.
  destruct (mapM_loadEntry _ _ _ _ _ _ Hmap) as (_ & _ & Hfwd & Hback).
  assert (Hkept : fi ∈ filter (λ fi, keepEntry fi = true) infos).
  { apply list_elem_of_filter. split; [|done]. unfold keepEntry.
    rewrite Hreg, Hsuf. simpl.
    destruct (String.eqb_spec (fi_Name fi) pinnedVersionsFileName); [done|reflexivity]. }
  destruct (Hfwd fi Hkept) as (s & Hs & Hload).
  assert (Hs_eq : s = {| Name := TrimSuffix (fi_Name fi) ".json"; Set_ := set |}).
  { unfold loadEntry, bind, ReadSetFile, ret in Hload.
    rewrite Hreg, Hsuf in Hload. simpl in Hload. rewrite Hread in Hload.
    by injection Hload as <-. }
  subst s.
  destruct (sortAndCompact_facts sets Hcontract) as (_ & _ & _ & _ & Hfile & _).
  apply Hfile; [exact Hs|].
  intros other Hother Hname.
  destruct (Hback other Hother) as (fi' & Hfi' & Hload').
  apply list_elem_of_filter in Hfi' as [_ Hfi'].
  destruct (loadEntry_cases _ _ _ _ Hload') as [(Hreg' & Hsuf' & Hname' & Hread')|Hzero];
    [|by right].
  left. simpl in Hname.
  assert (Hsame : fi_Name fi' = fi_Name fi).
  { rewrite <- (TrimSuffix_app _ _ Hsuf'), <- (TrimSuffix_app _ _ Hsuf). congruence. }
  destruct other as [n s]. simpl in *. subst n. f_equal.
  rewrite Hsame, Hread in Hread'. by injection Hread'.
Qed.

(** C6: when [slices.SortFunc] keeps its contract, the list that sorting
    and compaction leave is strictly ascending by name, so every name
    occurs once; it has the names of the input and entries of the input
    only; and an entry whose name is shared by zero (directory-made)
    entries only is an entry of the result.  So the list of an all-targets run is ascending without
    repeated names, and where a file and a directory give the same name the
    entry read from the file is the one kept. *)
Theorem sortAndCompact_keeps_file_entry (sets : list namedCommandSet) :
  SortFunc_contract →
  let out := sortAndCompact sets in
  StronglySorted nameBefore out
  ∧ NoDup (map Name out)
  ∧ (∀ x, x ∈ out → x ∈ sets)
  ∧ (∀ n, n ∈ map Name out ↔ n ∈ map Name sets)
  ∧ (∀ file,
       file ∈ sets →
       (∀ other, other ∈ sets → Name other = Name file →
                 other = file ∨ IsZero (Set_ other) = true) →
       file ∈ out)
  ∧ (∀ cfgDir w w' l t,
       enumerateAll cfgDir w = (Ok l, w', t) →
       StronglySorted nameBefore l
       ∧ NoDup (map Name l)
       ∧ ∀ infos fi set,
           readDir w cfgDir = inr infos →
           fi ∈ infos →
           fi_IsRegular fi = true →
           HasSuffix (fi_Name fi) ".json" = true →
           fi_Name fi ≠ pinnedVersionsFileName →
           readSetFile w (filepath_Join [cfgDir; fi_Name fi]) = ReadOk set →
           {| Name := TrimSuffix (fi_Name fi) ".json"; Set_ := set |} ∈ l).
Proof.
  intros Hcontract out.
  destruct (sortAndCompact_facts sets Hcontract)
    as (Hso & Hnd & Hin & Hnames & Hfile & Hall).
  do 5 (split; [assumption|]).
  intros cfgDir w w' l t Hrun.
  destruct (Hall cfgDir w w' l t Hrun) as [Hso' Hnd'].
  do 2 (split; [assumption|]).
  intros infos fi set Hdir Hfi Hreg Hsuf Hpin Hread.
  by eapply enumerateAll_keeps_file_entry.
Qed.

End Facts.

(** ** Suffixes *)

Lemma length_app (a b : string) :
  String.length (a +:+ b) = String.length a + String.length b.
Proof. induction a as [|c a IH]; [reflexivity|]. simpl. by rewrite <- IH. Qed.

Lemma substring_app_r (a b : string) :
  String.substring (String.length a) (String.length b) (a +:+ b) = b.
Proof. induction a as [|c a IH]; [apply substring_all|exact IH]. Qed.

Lemma substring_app_l (a b : string) :
  String.substring 0 (String.length a) (a +:+ b) = a.
Proof.
  induction a as [|c a IH]; [by destruct b|].
  change (String c a +:+ b) with (String c (a +:+ b)). simpl. by rewrite IH.
Qed.

Lemma HasSuffix_app (a suffix : string) : HasSuffix (a +:+ suffix) suffix = true.
Proof.
  unfold HasSuffix. rewrite length_app. apply andb_true_iff. split.
  - apply Nat.leb_le. lia.
  - replace (String.length a + String.length suffix - String.length suffix)
      with (String.length a) by lia.
    rewrite substring_app_r. apply String.eqb_refl.
Qed.

(** [TrimSuffix] takes back the suffix that was put on. *)
Lemma TrimSuffix_put (a suffix : string) : TrimSuffix (a +:+ suffix) suffix = a.
Proof.
  unfold TrimSuffix. rewrite HasSuffix_app, length_app.
  replace (String.length a + String.length suffix - String.length suffix)
    with (String.length a) by lia.
  apply substring_app_l.
Qed.


(** ** The front of [main]: facts *)

Section FrontFacts.

Context `{!Platform} `{!Host}.

(** *** Arguments *)

Lemma parseCommand_spec (s : string) (c : command) :
  parseCommand s = Some c ↔ s = command_string c.
Proof.
  split.
  - intros Hfind. unfold parseCommand in Hfind.
    apply find_some in Hfind as [_ Heq]. apply String.eqb_eq in Heq. by symmetry.
  - intros ->. by destruct c.
Qed.

Lemma parseArgs_spec (args : list string) (target : string) (cmd : command) :
  parseArgs args = inr (target, cmd) ↔
  args = [target; command_string cmd] ∨ (target = "" ∧ args = [command_string cmd]).
Proof.
  split.
  - destruct args as [|a [|b [|c rest]]]; simpl; try discriminate.
    + destruct (parseCommand a) as [k|] eqn:Hk; [|discriminate].
      intros [= <- <-]. right. split; [done|]. by apply parseCommand_spec in Hk as ->.
    + destruct (parseCommand b) as [k|] eqn:Hk; [|discriminate].
      intros [= <- <-]. left. by apply parseCommand_spec in Hk as ->.
  - intros [-> | [-> ->]]; simpl.
    + by rewrite (proj2 (parseCommand_spec _ cmd) eq_refl).
    + by rewrite (proj2 (parseCommand_spec _ cmd) eq_refl).
Qed.

(** X1: the program goes on to the operations exactly when [-new] is not
    given, the configuration directory is known and the positional
    arguments are an operation name, or a target and an operation name,
    the name being one of ver, checklatest, install, update.  An empty
    target argument is the same as none.  With [-new] the arguments are not
    looked at: the program scaffolds, whatever they are. *)
Theorem program_operates (o : options) (args : list string) (w : World)
    (r : outcome unit * World * list event) :
  (program o args w = Operated r ↔
   ∃ cfgDir target cmd,
     resolveCfgDir o w = inr cfgDir
     ∧ opt_n o = ""
     ∧ (args = [target; command_string cmd] ∨ (target = "" ∧ args = [command_string cmd]))
     ∧ r = main cfgDir target cmd {| flag_v := opt_v o; flag_f := opt_f o |} w)
  ∧ (∀ c, program o [""; c] w = program o [c] w)
  ∧ (∀ cfgDir, resolveCfgDir o w = inr cfgDir → opt_n o ≠ "" →
       program o args w = Scaffolded (scaffold cfgDir (opt_n o) w)).
Proof.
  unfold program. split; [|split].
  - split.
    + destruct (resolveCfgDir o w) as [err|cfgDir]; [discriminate|].
      destruct (decide (opt_n o ≠ "")) as [Hn|Hn]; [discriminate|].
      destruct (parseArgs args) as [err|[target cmd]] eqn:Hargs; [discriminate|].
      intros [= <-]. exists cfgDir, target, cmd.
      split; [done|]. split; [by destruct (decide (opt_n o = ""))|].
      split; [by apply parseArgs_spec|done].
    + intros (cfgDir & target & cmd & -> & Hn & Hargs & ->).
      rewrite decide_False by (intros Hne; by apply Hne).
      apply parseArgs_spec in Hargs. by rewrite Hargs.
  - intros c. reflexivity.
  - intros cfgDir -> Hn. by rewrite decide_True.
Qed.

(** *** Scaffolding *)

Lemma writesOnlyCreated_app (t1 t2 : list fsEvent) :
  writesOnlyCreated t1 → writesOnlyCreated t2 → writesOnlyCreated (t1 ++ t2).
Proof.
  intros H1 H2. revert H1.
  assert (Hboth : (writesOnlyCreated t1 → writesOnlyCreated (t1 ++ t2))
                  ∧ ∀ ev, writesOnlyCreated (ev :: t1) → writesOnlyCreated ((ev :: t1) ++ t2));
    [|by destruct Hboth].
  induction t1 as [|ev' t1 [IH1 IH2]].
  - split; [done|]. intros [p [|]|p c|p]; simpl; done.
  - split; [apply IH2|].
    intros [p [|]|p c|p]; simpl.
    + destruct ev' as [q b|q c|q]; try done. intros [-> Hrest]. split; [done|]. by apply IH1.
    + apply IH2.
    + done.
    + apply IH2.
Qed.

(** One exclusive create: what it may leave in the trace. *)
Lemma createWith_run (path : string) (makeContent : World → content) (w : World) :
  ∃ r w' t,
    createWith path makeContent w = (r, w', t)
    ∧ writesOnlyCreated t
    ∧ (∀ ev, ev ∈ t → fsPath ev = path)
    ∧ (t ≠ [])
    ∧ (os_OpenFile_excl w path = Existed → r = Ok tt ∧ w' = w ∧ t = [FsOpenExcl path false]).
Proof.
  unfold createWith. destruct (os_OpenFile_excl w path) as [w1| |err].
  - destruct (file_WriteClose w1 path (makeContent w1)) as [[err|] w2];
      eexists _, _, _; (split; [reflexivity|]); simpl;
      (split; [done|]); (split; [|done]);
      intros ev Hev; rewrite !elem_of_cons, elem_of_nil in Hev;
      by destruct Hev as [->|[->|[]]].
  - eexists _, _, _. split; [reflexivity|]. simpl. split; [done|].
    split; [|done]. intros ev Hev. by apply list_elem_of_singleton in Hev as ->.
  - eexists _, _, _. split; [reflexivity|]. simpl. split; [done|].
    split; [|done]. intros ev Hev. by apply list_elem_of_singleton in Hev as ->.
Qed.

Lemma mkdirIfMissing_run (path : string) (w : World) :
  ∃ r w',
    mkdirIfMissing path w = (r, w', [FsMkdir path])
    ∧ (os_Mkdir w path = Existed → r = Ok tt ∧ w' = w).
Proof.
  unfold mkdirIfMissing. destruct (os_Mkdir w path); eexists _, _; by split.
Qed.

(** The loop over the four scripts. *)
Lemma scripts_run (cfgDir n : string) (l : list command) :
  ∀ w, ∃ r w' t,
    forEachF (λ c, createWith (scriptName cfgDir n c) shebang) l w = (r, w', t)
    ∧ writesOnlyCreated t
    ∧ (∀ ev, ev ∈ t → fsPath ev ∈ map (scriptName cfgDir n) l)
    ∧ (r = Ok tt → ∀ c, c ∈ l → scriptName cfgDir n c ∈ fsPath <$> t)
    ∧ ((∀ c, c ∈ l → os_OpenFile_excl w (scriptName cfgDir n c) = Existed) →
       r = Ok tt ∧ w' = w ∧ t = (λ c, FsOpenExcl (scriptName cfgDir n c) false) <$> l).
Proof.
  induction l as [|c l IH]; intros w.
  - exists (Ok tt), w, []. split; [done|]. split; [done|].
    split; [intros ev Hev; by apply elem_of_nil in Hev|].
    split; [intros _ c Hc; by apply elem_of_nil in Hc|done].
  - simpl forEachF. unfold bindF.
    destruct (createWith_run (scriptName cfgDir n c) shebang w)
      as (r1 & w1 & t1 & Hone & Hw1 & Hp1 & Hne1 & Hex1).
    rewrite Hone. destruct r1 as [[]|err].
    + destruct (IH w1) as (r2 & w2 & t2 & Hrest & Hw2 & Hp2 & Hall2 & Hex2).
      rewrite Hrest. eexists _, _, _. split; [reflexivity|].
      split; [by apply writesOnlyCreated_app|].
      split; [|split].
      * intros ev Hev. apply elem_of_app in Hev as [Hev|Hev].
        -- rewrite (Hp1 ev Hev). simpl. left.
        -- simpl. right. by apply Hp2.
      * intros -> c' Hc'. rewrite fmap_app, elem_of_app.
        apply elem_of_cons in Hc' as [->|Hc'].
        -- left. destruct t1 as [|ev t1]; [done|].
           rewrite <- (Hp1 ev) by left. simpl. left.
        -- right. by apply Hall2.
      * intros Hall.
        destruct (Hex1 (Hall c ltac:(left))) as (_ & -> & ->).
        destruct Hex2 as (-> & -> & ->); [intros c' Hc'; apply Hall; by right|].
        done.
    + eexists _, _, _. split; [reflexivity|]. split; [done|].
      split; [|split].
      * intros ev Hev. rewrite (Hp1 ev Hev). simpl. left.
      * intros [=].
      * intros Hall. by destruct (Hex1 (Hall c ltac:(left))) as ([=] & _).
Qed.

Lemma scaffold_run (cfgDir n : string) (w : World) :
  ∃ r w' t,
    scaffold cfgDir n w = (r, w', t)
    ∧ writesOnlyCreated t
    ∧ (∀ ev, ev ∈ t → fsPath ev ∈ scaffoldPaths cfgDir n)
    ∧ (r = Ok tt → ∀ p, p ∈ scaffoldPaths cfgDir n → p ∈ fsPath <$> t)
    ∧ ((∀ c, os_OpenFile_excl w (scriptName cfgDir n c) = Existed) →
       os_OpenFile_excl w (filepath_Join [cfgDir; n +:+ ".json"]) = Existed →
       os_Mkdir w (filepath_Join [cfgDir; n]) = Existed →
       r = Ok tt ∧ w' = w
       ∧ t = FsOpenExcl (filepath_Join [cfgDir; n +:+ ".json"]) false
             :: FsMkdir (filepath_Join [cfgDir; n])
             :: ((λ c, FsOpenExcl (scriptName cfgDir n c) false) <$> cmds)).
Proof.
  unfold scaffold, bindF, scaffoldPaths.
  destruct (createWith_run (filepath_Join [cfgDir; n +:+ ".json"])
              (λ _, JSONDoc emptyCommandSet) w)
    as (r1 & w1 & t1 & Hone & Hw1 & Hp1 & Hne1 & Hex1).
  rewrite Hone. destruct r1 as [[]|err].
  - destruct (mkdirIfMissing_run (filepath_Join [cfgDir; n]) w1) as (r2 & w2 & Hdir & Hex2).
    rewrite Hdir. destruct r2 as [[]|err].
    + destruct (scripts_run cfgDir n cmds w2) as (r3 & w3 & t3 & Hscripts & Hw3 & Hp3 & Hall3 & Hex3).
      rewrite Hscripts. eexists _, _, _. split; [reflexivity|].
      split; [apply writesOnlyCreated_app; [done|]; by apply (writesOnlyCreated_app [_])|].
      split; [|split].
      * intros ev Hev. rewrite !elem_of_app, list_elem_of_singleton in Hev.
        destruct Hev as [Hev|[->|Hev]].
        -- rewrite (Hp1 ev Hev). left.
        -- right. left.
        -- right. right. by apply Hp3.
      * intros -> p Hp. rewrite !fmap_app, !elem_of_app. simpl.
        rewrite !elem_of_cons in Hp. destruct Hp as [->|[->|Hp]].
        -- left. destruct t1 as [|ev t1]; [done|].
           rewrite <- (Hp1 ev) by left. simpl. left.
        -- right. left. by apply list_elem_of_singleton.
        -- right. right. apply list_elem_of_In, in_map_iff in Hp as (c & <- & Hc).
           apply Hall3; [done|]. by apply list_elem_of_In.
      * intros Hscr Hjson Hmk.
        destruct (Hex1 Hjson) as (_ & -> & ->).
        destruct (Hex2 Hmk) as (_ & ->).
        destruct Hex3 as (-> & -> & ->); [intros c _; apply Hscr|]. done.
    + eexists _, _, _. split; [reflexivity|].
      split; [by apply (writesOnlyCreated_app _ [_])|].
      split; [|split].
      * intros ev Hev. rewrite elem_of_app, list_elem_of_singleton in Hev.
        destruct Hev as [Hev| ->]; [rewrite (Hp1 ev Hev); left|right; left].
      * intros [=].
      * intros _ Hjson Hmk. destruct (Hex1 Hjson) as (_ & -> & _).
        by destruct (Hex2 Hmk) as ([=] & _).
  - eexists _, _, _. split; [reflexivity|]. split; [done|].
    split; [|split].
    + intros ev Hev. rewrite (Hp1 ev Hev). left.
    + intros [=].
    + intros _ Hjson _. by destruct (Hex1 Hjson) as ([=] & _).
Qed.

(** X2: scaffolding never writes to a file that was there before: in its
    trace every write goes to the file that the call just before it
    created with an exclusive open, and every file so created is written
    at once. *)
Theorem scaffold_never_overwrites (cfgDir n : string) (w : World) :
  writesOnlyCreated (snd (scaffold cfgDir n w)).
Proof.
  destruct (scaffold_run cfgDir n w) as (r & w' & t & Hrun & Hwrites & _).
  by rewrite Hrun.
Qed.

(** X3: scaffolding touches six paths and no other: the file
    [<dir>/<n>.json], the directory [<dir>/<n>] and in it a script for each
    of the four operations, with the suffix [.ps1] when [GOOS] is windows
    and [.sh] otherwise.  When it ends without panic it has been at every
    one of them. *)
Theorem scaffold_paths (cfgDir n : string) (w : World) :
  (∀ ev, ev ∈ snd (scaffold cfgDir n w) → fsPath ev ∈ scaffoldPaths cfgDir n)
  ∧ (fst (fst (scaffold cfgDir n w)) = Ok tt →
     ∀ p, p ∈ scaffoldPaths cfgDir n → p ∈ fsPath <$> snd (scaffold cfgDir n w))
  ∧ scaffoldPaths cfgDir n
    = (let suffix := if decide (GOOS = "windows") then ".ps1" else ".sh" in
       [filepath_Join [cfgDir; n +:+ ".json"];
        filepath_Join [cfgDir; n];
        filepath_Join [cfgDir; n; "ver"] +:+ suffix;
        filepath_Join [cfgDir; n; "checklatest"] +:+ suffix;
        filepath_Join [cfgDir; n; "install"] +:+ suffix;
        filepath_Join [cfgDir; n; "update"] +:+ suffix]).
Proof.
  destruct (scaffold_run cfgDir n w) as (r & w' & t & Hrun & _ & Hpaths & Hall & _).
  rewrite Hrun. simpl. split; [exact Hpaths|]. split; [exact Hall|reflexivity].
Qed.

(** X4: scaffolding a target whose file, directory and four scripts are all
    there already changes nothing: it ends without panic in the same world
    and its trace has the six attempts and no write. *)
Theorem scaffold_existing_is_noop (cfgDir n : string) (w : World) :
  os_OpenFile_excl w (filepath_Join [cfgDir; n +:+ ".json"]) = Existed →
  os_Mkdir w (filepath_Join [cfgDir; n]) = Existed →
  (∀ c, os_OpenFile_excl w (scriptName cfgDir n c) = Existed) →
  scaffold cfgDir n w
  = (Ok tt, w,
     FsOpenExcl (filepath_Join [cfgDir; n +:+ ".json"]) false
       :: FsMkdir (filepath_Join [cfgDir; n])
       :: ((λ c, FsOpenExcl (scriptName cfgDir n c) false) <$> cmds)).
Proof.
  intros Hjson Hmk Hscr.
  destruct (scaffold_run cfgDir n w) as (r & w' & t & Hrun & _ & _ & _ & Hex).
  destruct (Hex Hscr Hjson Hmk) as (-> & -> & ->). exact Hrun.
Qed.

End FrontFacts.

(** ** The runs: further facts *)

Section RunFacts.

Context `{!Platform}.

(** *** Entries of [Exec] in a trace *)

Lemma execEntries_app (t1 t2 : list event) :
  execEntries (t1 ++ t2) = execEntries t1 ++ execEntries t2.
Proof. apply List.filter_app. Qed.

Lemma execEntries_none (t : list event) :
  (∀ ev, ev ∈ t → is_exec ev = false) → execEntries t = [].
Proof.
  induction t as [|ev t IH]; intros Hnone; [reflexivity|].
  unfold execEntries. simpl. rewrite (Hnone ev) by left.
  apply IH. intros ev' Hev'. apply Hnone. by right.
Qed.

Lemma execEntries_elem (t : list event) (ev : event) :
  ev ∈ execEntries t ↔ ev ∈ t ∧ is_exec ev = true.
Proof. unfold execEntries. rewrite !list_elem_of_In. apply List.filter_In. Qed.

(** [Exec] never panics and prints nothing; its trace starts with its
    entry and has no other. *)
Lemma Exec_shape (e : commandExecutor) (kind : command) (ver : string) (verbose : bool)
    (w : World) :
  ∃ out err w' t,
    Exec e kind ver verbose w
    = (Ok (out, err), w', EvExec (Name (commandSet_ e)) kind ver verbose :: t)
    ∧ (∀ ev, ev ∈ t → is_exec ev = false ∧ is_printf ev = false).
Proof.
  destruct (resolve_total e kind ver w) as (r & n & Hr & _).
  unfold Exec, bind at 1, emit. unfold bind at 1. rewrite Hr.
  destruct r as [args|].
  - unfold bind, Environ, Run.
    destruct (cmd_Run w args _) as [[out err] w'] eqn:Hrun.
    eexists out, err, w', _. split; [reflexivity|].
    intros ev Hev. simpl in Hev.
    rewrite elem_of_app, list_elem_of_fmap, list_elem_of_singleton in Hev.
    by destruct Hev as [(p & -> & _)| ->].
  - unfold ret. eexists _, _, w, _. split; [reflexivity|].
    intros ev Hev. rewrite app_nil_r in Hev.
    by apply list_elem_of_fmap in Hev as (p & -> & _).
Qed.

Lemma Exec_entries (e : commandExecutor) (kind : command) (ver : string) (verbose : bool)
    (w w' : World) r t :
  Exec e kind ver verbose w = (r, w', t) →
  execEntries t = [EvExec (Name (commandSet_ e)) kind ver verbose]
  ∧ (∀ ev, ev ∈ t → is_printf ev = false)
  ∧ ∃ out err, r = Ok (out, err).
Proof.
  intros HExec.
  destruct (Exec_shape e kind ver verbose w) as (out & err & w1 & t1 & Hshape & Hrest).
  rewrite Hshape in HExec. injection HExec as <- <- <-.
  split; [|split; [|by eexists _, _]].
  - unfold execEntries. simpl. f_equal. apply execEntries_none. intros ev Hev. by apply Hrest.
  - intros ev Hev. apply elem_of_cons in Hev as [->|Hev]; [done|]. by apply Hrest.
Qed.

(** *** The [ver] and [checklatest] runs without the force flag *)




(** *** Which operations a run calls *)

Lemma forEach_entries (P : event → Prop) {A : Type} (body : A → M unit) (l : list A) :
  (∀ x, x ∈ l → ∀ w r w' t, body x w = (r, w', t) → Forall P (execEntries t)) →
  ∀ w r w' t, forEach body l w = (r, w', t) → Forall P (execEntries t).
Proof.
  induction l as [|x l IH]; intros Hbody w r w' t Hrun.
  - injection Hrun as <- <- <-. constructor.
  - simpl forEach in Hrun. unfold bind in Hrun.
    destruct (body x w) as [[[[]|err] w1] t1] eqn:Hone.
    + destruct (forEach body l w1) as [[r2 w2] t2] eqn:Hrest.
      injection Hrun as <- <- <-. rewrite execEntries_app. apply Forall_app. split.
      * by apply (Hbody x ltac:(left) _ _ _ _ Hone).
      * apply (IH (λ y Hy, Hbody y ltac:(by right)) _ _ _ _ Hrest).
    + injection Hrun as <- <- <-. by apply (Hbody x ltac:(left) _ _ _ _ Hone).
Qed.

Lemma foldM_entries (P : event → Prop) {A S : Type} (body : S → A → M S) (l : list A) :
  (∀ x, x ∈ l → ∀ s w r w' t, body s x w = (r, w', t) → Forall P (execEntries t)) →
  ∀ s w r w' t, foldM body l s w = (r, w', t) → Forall P (execEntries t).
Proof.
  induction l as [|x l IH]; intros Hbody s w r w' t Hrun.
  - injection Hrun as <- <- <-. constructor.
  - simpl foldM in Hrun. unfold bind in Hrun.
    destruct (body s x w) as [[[s1|err] w1] t1] eqn:Hone.
    + destruct (foldM body l s1 w1) as [[r2 w2] t2] eqn:Hrest.
      injection Hrun as <- <- <-. rewrite execEntries_app. apply Forall_app. split.
      * by apply (Hbody x ltac:(left) _ _ _ _ _ Hone).
      * apply (IH (λ y Hy, Hbody y ltac:(by right)) _ _ _ _ _ Hrest).
    + injection Hrun as <- <- <-. by apply (Hbody x ltac:(left) _ _ _ _ _ Hone).
Qed.

(** The entries of one round of the [install] loop: [ver] alone, or [ver],
    [checklatest] and [install]; with the force flag the round never
    panics. *)
Lemma installOne_entries (pinnedVersions : gmap string string) (fl : flags)
    (e : commandExecutor) (w : World) :
  let name := Name (commandSet_ e) in
  ∃ r w' t,
    installOne pinnedVersions fl e w = (r, w', t)
    ∧ (execEntries t = [EvExec name commandVer "" false]
       ∨ ∃ v, execEntries t = [EvExec name commandVer "" false;
                               EvExec name commandChecklatest "" false;
                               EvExec name commandInstall v (flag_v fl)])
    ∧ (flag_f fl = true → r = Ok tt).
Proof.
  intros name. unfold installOne. fold name.
  unfold bind at 1, Printf, emit. unfold bind at 1.
  destruct (Exec e commandVer "" false w) as [[r1 w1] t1] eqn:H1.
  destruct (Exec_entries _ _ _ _ _ _ _ _ H1) as (He1 & _ & out1 & err1 & ->).
  unfold execEntries in He1.
  destruct err1 as [err1|].
  - unfold bind at 1.
    destruct (Exec e commandChecklatest "" false w1) as [[r2 w2] t2] eqn:H2.
    destruct (Exec_entries _ _ _ _ _ _ _ _ H2) as (He2 & _ & out2 & err2 & ->).
    unfold execEntries in He2.
    set (ver := match err2 with
                | None => strings_TrimSpace out2
                | Some _ => ""
                end).
    destruct (Exec e commandInstall (cmp_Or (index pinnedVersions name) ver) (flag_v fl) w2)
      as [[r3 w3] t3] eqn:H3.
    destruct (Exec_entries _ _ _ _ _ _ _ _ H3) as (He3 & _ & out3 & err3 & ->).
    unfold execEntries in He3.
    destruct err2 as [e2|]; unfold bind at 1; unfold bind at 1;
      unfold ret at 1; try unfold bind at 1; fold ver; rewrite H3;
      destruct err3 as [e3|]; try destruct (flag_f fl) eqn:Hf; unfold panic, emit; simpl;
      eexists _, _, _; (split; [reflexivity|]);
      (split; [right; eexists; unfold execEntries;
               repeat (simpl; rewrite ?List.filter_app);
               rewrite ?He1, ?He2, ?He3; reflexivity|]);
      intros Hforce; first [reflexivity|discriminate Hforce].
  - eexists _, _, _. split; [reflexivity|]. split; [|done].
    left. unfold execEntries. repeat (simpl; rewrite ?List.filter_app).
    rewrite He1. reflexivity.
Qed.
Lemma queryOne_entries (kind : command) (fl : flags) (versions : gmap string string)
    (e : commandExecutor) (w w' : World) r t :
  queryOne kind fl versions e w = (r, w', t) →
  execEntries t = [EvExec (Name (commandSet_ e)) kind "" false].
Proof.
  unfold queryOne, bind at 1.
  destruct (Exec e kind "" false w) as [[r1 w1] t1] eqn:H1.
  destruct (Exec_entries _ _ _ _ _ _ _ _ H1) as (He1 & _ & out1 & err1 & ->).
  unfold execEntries in *.
  destruct err1 as [err1|]; [destruct (flag_f fl)|];
    unfold bind, panic, Printf, emit, ret; simpl; intros Heq; injection Heq as <- <- <-;
    repeat (simpl; rewrite ?List.filter_app); by rewrite He1.
Qed.

Lemma gatherOne_entries (fl : flags) maps (e : commandExecutor) (w w' : World) r t :
  gatherOne fl maps e w = (r, w', t) →
  let name := Name (commandSet_ e) in
  (execEntries t = [EvExec name commandVer "" (flag_v fl);
                    EvExec name commandChecklatest "" (flag_v fl)]
   ∨ (execEntries t = [EvExec name commandVer "" (flag_v fl)] ∧ ∃ err, r = Panic err)).
Proof.
  unfold gatherOne, bind at 1.
  destruct (Exec e commandVer "" (flag_v fl) w) as [[r1 w1] t1] eqn:H1.
  destruct (Exec_entries _ _ _ _ _ _ _ _ H1) as (He1 & _ & out1 & err1 & ->).
  unfold execEntries in *.
  destruct err1 as [err1|].
  - unfold bind, panic. simpl. intros Heq. injection Heq as <- <- <-. right.
    split; [by rewrite app_nil_r|by eexists].
  - unfold bind at 1. unfold ret at 1. unfold bind at 1.
    destruct (Exec e commandChecklatest "" (flag_v fl) w1) as [[r2 w2] t2] eqn:H2.
    destruct (Exec_entries _ _ _ _ _ _ _ _ H2) as (He2 & _ & out2 & err2 & ->).
    unfold execEntries in He2.
    destruct err2 as [err2|]; unfold bind, panic, ret; simpl; intros Heq;
      injection Heq as <- <- <-; left; repeat (simpl; rewrite ?List.filter_app); by rewrite He1, He2.
Qed.

Lemma updateOne_entries (fl : flags) (u : targetedExecutor) (w w' : World) r t :
  updateOne fl u w = (r, w', t) →
  execEntries t = [EvExec (Name (commandSet_ (executor u))) commandUpdate (tgt u) (flag_v fl)].
Proof.
  intros Hrun.
  destruct (updateOne_run fl u w) as (out & err & w1 & t1 & _ & Hnone & Hone).
  rewrite Hone in Hrun. injection Hrun as <- <- <-.
  unfold execEntries. simpl. f_equal. rewrite List.filter_app.
  fold (execEntries t1). rewrite (execEntries_none t1 Hnone). by destruct err.
Qed.

Lemma dispatch_entries (cmd : command) (pinnedVersions : gmap string string)
    (fl : flags) (execs : list commandExecutor) (w : World)
    (n : string) (k : command) (v : string) (vb : bool) :
  EvExec n k v vb ∈ snd (dispatch cmd pinnedVersions fl execs w) →
  mayCall cmd k = true ∧ n ∈ names execs.
Proof.
  set (P := λ ev, match ev with
                  | EvExec n k _ _ => mayCall cmd k = true ∧ n ∈ names execs
                  | _ => True
                  end).
  assert (Hin : ∀ e, e ∈ execs → Name (commandSet_ e) ∈ names execs).
  { intros e He. unfold names.
    apply list_elem_of_In, (in_map (λ e, Name (commandSet_ e))). by apply list_elem_of_In. }
  assert (Hall : Forall P (execEntries (snd (dispatch cmd pinnedVersions fl execs w)))).
  { destruct (dispatch cmd pinnedVersions fl execs w) as [[r w'] t] eqn:Hrun. simpl.
    destruct cmd; simpl in Hrun.
    - unfold queryAll, bind in Hrun.
      destruct (foldM _ execs ∅ w) as [[[m|err] w1] t1] eqn:Hfold;
        injection Hrun as <- <- <-; rewrite ?execEntries_app, ?app_nil_r;
        eapply (foldM_entries P) in Hfold; try exact Hfold.
      + intros e He s w0 r0 w0' t0 Hone. rewrite (queryOne_entries _ _ _ _ _ _ _ _ Hone).
        repeat constructor. by apply Hin.
      + intros e He s w0 r0 w0' t0 Hone. rewrite (queryOne_entries _ _ _ _ _ _ _ _ Hone).
        repeat constructor. by apply Hin.
    - unfold queryAll, bind in Hrun.
      destruct (foldM _ execs ∅ w) as [[[m|err] w1] t1] eqn:Hfold;
        injection Hrun as <- <- <-; rewrite ?execEntries_app, ?app_nil_r;
        eapply (foldM_entries P) in Hfold; try exact Hfold.
      + intros e He s w0 r0 w0' t0 Hone. rewrite (queryOne_entries _ _ _ _ _ _ _ _ Hone).
        repeat constructor. by apply Hin.
      + intros e He s w0 r0 w0' t0 Hone. rewrite (queryOne_entries _ _ _ _ _ _ _ _ Hone).
        repeat constructor. by apply Hin.
    - eapply (forEach_entries P); [|exact Hrun].
      intros e He w0 r0 w0' t0 Hone.
      destruct (installOne_entries pinnedVersions fl e w0) as (r1 & w1 & t1 & Hone' & Hent & _).
      rewrite Hone in Hone'. injection Hone' as <- <- <-.
      destruct Hent as [-> | [ver ->]]; repeat constructor; by apply Hin.
    - pose proof (updateAll_run pinnedVersions fl execs w) as Hup.
      destruct (gatherAll fl execs w) as [[[[cur lat]|err] w1] t1] eqn:Hgather.
      + destruct Hup as (ups & t2 & Hplan & Hup). rewrite Hrun in Hup.
        unfold withTrace in Hup.
        destruct (forEach (updateOne fl) ups w1) as [[r3 w3] t3] eqn:Hexec.
        injection Hup as -> -> ->.
        destruct (foldM_plan pinnedVersions cur lat execs [] w1)
          as (ups' & t2' & Hplan' & Hprints & Hups & _).
        unfold planAll in Hplan. rewrite Hplan' in Hplan. simpl in Hplan.
        injection Hplan as <- <-.
        rewrite !execEntries_app, (execEntries_none t2' Hprints), app_nil_r.
        apply Forall_app. split.
        * eapply (foldM_entries P); [|exact Hgather].
          intros e He s w0 r0 w0' t0 Hone.
          destruct (gatherOne_entries _ _ _ _ _ _ _ Hone) as [-> | [-> _]];
            repeat constructor; by apply Hin.
        * eapply (forEach_entries P); [|exact Hexec].
          intros u Hu w0 r0 w0' t0 Hone. rewrite (updateOne_entries _ _ _ _ _ _ Hone).
          repeat constructor. apply Hin. by apply Hups.
      + rewrite Hrun in Hup. injection Hup as -> -> ->.
        eapply (foldM_entries P); [|exact Hgather].
        intros e He s w0 r0 w0' t0 Hone.
        destruct (gatherOne_entries _ _ _ _ _ _ _ Hone) as [-> | [-> _]];
          repeat constructor; by apply Hin. }
  intros Hev.
  assert (Hent : EvExec n k v vb ∈ execEntries (snd (dispatch cmd pinnedVersions fl execs w)))
    by (by apply execEntries_elem).
  rewrite Forall_forall in Hall. exact (Hall _ Hent).
Qed.

(** X6: a run calls [Exec] for its targets only, and only with the
    operations that belong to it: a [ver] run with [ver], a [checklatest]
    run with [checklatest], an [install] run with [ver], [checklatest] and
    [install], an [update] run with [ver], [checklatest] and [update].  So
    asking for versions never installs or updates anything, an install
    never updates and an update never installs. *)
Theorem dispatch_operations (cmd : command) (pinnedVersions : gmap string string)
    (fl : flags) (execs : list commandExecutor) (w : World)
    (n : string) (k : command) (v : string) (vb : bool) :
  EvExec n k v vb ∈ snd (dispatch cmd pinnedVersions fl execs w) →
  mayCall cmd k = true ∧ n ∈ names execs.
Proof. apply dispatch_entries. Qed.

(** *** The order of a run *)

Lemma visited_app (kind : command) (t1 t2 : list event) :
  visited kind (t1 ++ t2) = visited kind t1 ++ visited kind t2.
Proof. apply omap_app. Qed.

Lemma visited_entries (kind : command) (t : list event) :
  visited kind t = visited kind (execEntries t).
Proof.
  induction t as [|ev t IH]; [reflexivity|].
  unfold execEntries. simpl. destruct ev; simpl; try exact IH.
  fold (execEntries t). unfold visited in *. simpl. destruct (decide _); by rewrite IH.
Qed.

(** X7: with the force flag an [install] run never panics and calls [ver]
    for every target, once each and in the order of the enumeration: no
    failure of an earlier target keeps a later one from its turn. *)
Theorem install_forced_visits_all (pinnedVersions : gmap string string) (fl : flags)
    (execs : list commandExecutor) (w : World) :
  flag_f fl = true →
  ∃ w' t,
    dispatch commandInstall pinnedVersions fl execs w = (Ok tt, w', t)
    ∧ visited commandVer t = names execs.
Proof.
  intros Hf. simpl dispatch. revert w.
  induction execs as [|e execs IH]; intros w.
  - by exists w, [].
  - simpl forEach. unfold bind.
    destruct (installOne_entries pinnedVersions fl e w) as (r & w1 & t1 & Hone & Hent & Hok).
    rewrite Hone, (Hok Hf).
    destruct (IH w1) as (w2 & t2 & Hrest & Hvis). rewrite Hrest.
    exists w2, (t1 ++ t2). split; [reflexivity|].
    rewrite visited_app, Hvis, (visited_entries _ t1).
    by destruct Hent as [-> | [v ->]].
Qed.

Lemma foldM_gather_entries (fl : flags) (execs : list commandExecutor) :
  ∀ maps w maps' w' t,
    foldM (gatherOne fl) execs maps w = (Ok maps', w', t) →
    execEntries t
    = flat_map (λ e, [EvExec (Name (commandSet_ e)) commandVer "" (flag_v fl);
                      EvExec (Name (commandSet_ e)) commandChecklatest "" (flag_v fl)])
        execs.
Proof.
  induction execs as [|e execs IH]; intros maps w maps' w' t Hrun.
  - by injection Hrun as <- <- <-.
  - simpl foldM in Hrun. unfold bind in Hrun.
    destruct (gatherOne fl maps e w) as [[[maps1|err] w1] t1] eqn:Hone; [|discriminate Hrun].
    destruct (foldM (gatherOne fl) execs maps1 w1) as [[r2 w2] t2] eqn:Hrest.
    injection Hrun as -> <- <-.
    rewrite execEntries_app, (IH _ _ _ _ _ Hrest).
    destruct (gatherOne_entries _ _ _ _ _ _ _ Hone) as [-> | [_ [err Herr]]];
      [reflexivity|discriminate Herr].
Qed.

Lemma foldM_plan_exact (pinnedVersions cur lat : gmap string string)
    (execs : list commandExecutor) :
  ∀ ups w,
  ∃ t,
    foldM (planOne pinnedVersions cur lat) execs ups w
    = (Ok (ups ++ map (λ e, {| tgt := effectiveVersion pinnedVersions lat (Name (commandSet_ e));
                               executor := e |})
                    (List.filter (stale pinnedVersions cur lat) execs)), w, t)
    ∧ execEntries t = [].
Proof.
  induction execs as [|e execs IH]; intros ups w.
  - exists []. by rewrite app_nil_r.
  - simpl foldM. unfold bind. rewrite planOne_run. simpl List.filter. unfold stale at 1.
    destruct (decide (index cur (Name (commandSet_ e))
                      = effectiveVersion pinnedVersions lat (Name (commandSet_ e))))
      as [Hsame|Hdiff].
    + rewrite bool_decide_eq_false_2 by (intros Hne; by apply Hne).
      destruct (IH ups w) as (t & -> & Ht). eexists. split; [reflexivity|].
      unfold execEntries in *. simpl. rewrite !List.filter_app, Ht. simpl.
      by destruct (decide _).
    + rewrite bool_decide_eq_true_2 by done.
      destruct (IH (ups ++ [{| tgt := effectiveVersion pinnedVersions lat (Name (commandSet_ e));
                               executor := e |}]) w) as (t & -> & Ht).
      eexists. split; [by rewrite <- app_assoc|].
      unfold execEntries in *. simpl. rewrite !List.filter_app, Ht. simpl.
      by destruct (decide _).
Qed.

Lemma forEach_update_entries (fl : flags) (ups : list targetedExecutor) :
  ∀ w w' t,
    forEach (updateOne fl) ups w = (Ok tt, w', t) →
    execEntries t
    = map (λ u, EvExec (Name (commandSet_ (executor u))) commandUpdate (tgt u) (flag_v fl)) ups.
Proof.
  induction ups as [|u ups IH]; intros w w' t Hrun.
  - by injection Hrun as <- <-.
  - simpl forEach in Hrun. unfold bind in Hrun.
    destruct (updateOne fl u w) as [[[[]|err] w1] t1] eqn:Hone; [|discriminate Hrun].
    destruct (forEach (updateOne fl) ups w1) as [[r2 w2] t2] eqn:Hrest.
    injection Hrun as -> <- <-.
    by rewrite execEntries_app, (updateOne_entries _ _ _ _ _ _ Hone), (IH _ _ _ Hrest).
Qed.

(** X8: an [update] run that ends well has called, in this order: [ver]
    and then [checklatest] for every target in the order of the
    enumeration, all with the empty version; and only after the last of
    these, [update] for the targets whose current version differs from the
    version aimed at, again in the order of the enumeration, each with
    that version.  No update is made before every version is known. *)
Theorem update_schedule (pinnedVersions : gmap string string) (fl : flags)
    (execs : list commandExecutor) (w w' : World) (t : list event) :
  updateAll pinnedVersions fl execs w = (Ok tt, w', t) →
  ∃ cur lat w1 t1,
    gatherAll fl execs w = (Ok (cur, lat), w1, t1)
    ∧ execEntries t
      = flat_map (λ e, [EvExec (Name (commandSet_ e)) commandVer "" (flag_v fl);
                        EvExec (Name (commandSet_ e)) commandChecklatest "" (flag_v fl)])
          execs
        ++ map (λ e, EvExec (Name (commandSet_ e)) commandUpdate
                       (effectiveVersion pinnedVersions lat (Name (commandSet_ e)))
                       (flag_v fl))
             (List.filter (stale pinnedVersions cur lat) execs).
Proof.
  intros Hrun.
  pose proof (updateAll_run pinnedVersions fl execs w) as Hup.
  destruct (gatherAll fl execs w) as [[[[cur lat]|err] w1] t1] eqn:Hgather.
  - destruct Hup as (ups & t2 & Hplan & Hup). rewrite Hrun in Hup.
    unfold withTrace in Hup.
    destruct (forEach (updateOne fl) ups w1) as [[r3 w3] t3] eqn:Hexec.
    injection Hup as <- -> ->.
    destruct (foldM_plan_exact pinnedVersions cur lat execs [] w1) as (t2' & Hplan' & Ht2).
    unfold planAll in Hplan. rewrite Hplan' in Hplan. simpl in Hplan.
    injection Hplan as <- <-.
    exists cur, lat, w1, t1. split; [reflexivity|].
    rewrite !execEntries_app, Ht2, app_nil_r.
    rewrite (foldM_gather_entries _ _ _ _ _ _ _ Hgather).
    rewrite (forEach_update_entries _ _ _ _ _ Hexec).
    by rewrite map_map.
  - rewrite Hrun in Hup. discriminate Hup.
Qed.

(** *** Enumeration: one target and all targets *)

Lemma enumerateAll_sets (cfgDir : string) (w w' : World) (l : list namedCommandSet)
    (t : list event) (infos : list FileInfo) :
  enumerateAll cfgDir w = (Ok l, w', t) →
  readDir w cfgDir = inr infos →
  ∃ sets,
    mapM (loadEntry cfgDir) (filter (λ fi, keepEntry fi = true) infos) w = (Ok sets, w, [])
    ∧ l = sortAndCompact sets ∧ w' = w ∧ t = [].
Proof.
  intros Hrun Hdir. unfold enumerateAll, bind, ReadDir in Hrun. rewrite Hdir in Hrun.
  destruct (mapM _ _ w) as [[[sets|err] w1] t1] eqn:Hmap; [|discriminate Hrun].
  destruct (mapM_loadEntry _ _ _ _ _ _ Hmap) as (-> & -> & _).
  unfold ret in Hrun. injection Hrun as <- <- <-. by exists sets.
Qed.

(** X9: the two ways of naming targets agree.  When the listing of the
    configuration directory has the regular file [<n>.json] (not the pin
    file) and it reads well, a run for the one target [n] uses the set
    read from it, never looks for a directory, and that entry is the entry
    of [n] in a run for all targets.  When the listing has the directory
    [n] and no regular file [<n>.json], both runs use the entry with the
    zero set. *)
Theorem enumeration_modes_agree (cfgDir n : string) (w w' : World)
    (l : list namedCommandSet) (t : list event) (infos : list FileInfo) :
  SortFunc_contract →
  enumerateAll cfgDir w = (Ok l, w', t) →
  readDir w cfgDir = inr infos →
  (∀ fi set,
     fi ∈ infos → fi_IsRegular fi = true → fi_Name fi = n +:+ ".json" →
     fi_Name fi ≠ pinnedVersionsFileName →
     readSetFile w (filepath_Join [cfgDir; n +:+ ".json"]) = ReadOk set →
     enumerateOne cfgDir n w = (Ok [{| Name := n; Set_ := set |}], w, [])
     ∧ {| Name := n; Set_ := set |} ∈ l)
  ∧ (∀ fi err st,
       fi ∈ infos → fi_IsDir fi = true → fi_IsRegular fi = false → fi_Name fi = n →
       (∀ fi', fi' ∈ infos → fi_IsRegular fi' = true → fi_Name fi' ≠ n +:+ ".json") →
       readSetFile w (filepath_Join [cfgDir; n +:+ ".json"]) = ReadNotExist err →
       os_Stat w (filepath_Join [cfgDir; n]) = Some st → fi_IsDir st = true →
       enumerateOne cfgDir n w
       = (Ok [{| Name := n; Set_ := zeroCommandSet |}], w, [EvStat (filepath_Join [cfgDir; n])])
       ∧ {| Name := n; Set_ := zeroCommandSet |} ∈ l).
Proof.
  intros Hcontract Hrun Hdir. split.
  - intros fi set Hfi Hreg Hname Hpin Hread. split.
    + unfold enumerateOne, bind, ReadSetFile. by rewrite Hread.
    + rewrite <- (TrimSuffix_put n ".json"), <- Hname.
      eapply enumerateAll_keeps_file_entry; try done.
      * rewrite Hname. apply HasSuffix_app.
      * by rewrite Hname.
  - intros fi err st Hfi Hisdir Hnotreg Hname Hnofile Hread Hstat Hst. split.
    + unfold enumerateOne, bind, ReadSetFile, Stat. rewrite Hread, Hstat, Hst. reflexivity.
    + destruct (enumerateAll_sets _ _ _ _ _ _ Hrun Hdir) as (sets & Hmap & -> & _ & _).
      destruct (mapM_loadEntry _ _ _ _ _ _ Hmap) as (_ & _ & Hfwd & Hback).
      assert (Hkept : fi ∈ filter (λ fi, keepEntry fi = true) infos).
      { apply list_elem_of_filter. split; [|done]. unfold keepEntry.
        rewrite Hisdir. apply orb_true_r. }
      destruct (Hfwd fi Hkept) as (s & Hs & Hload).
      assert (s = {| Name := n; Set_ := zeroCommandSet |}) as ->.
      { unfold loadEntry in Hload. rewrite Hnotreg, Hisdir in Hload. simpl in Hload.
        unfold ret in Hload. injection Hload as <-. by rewrite Hname. }
      destruct (sortAndCompact_facts sets Hcontract) as (_ & _ & _ & _ & Hfile & _).
      apply Hfile; [exact Hs|].
      intros other Hother Hsame. right.
      destruct (Hback other Hother) as (fi' & Hfi' & Hload').
      apply list_elem_of_filter in Hfi' as [_ Hfi'].
      destruct (loadEntry_cases _ _ _ _ Hload') as [(Hreg' & Hsuf' & Hname' & _)|Hzero];
        [|done].
      exfalso. apply (Hnofile fi' Hfi' Hreg').
      rewrite <- (TrimSuffix_app _ _ Hsuf'). simpl in Hsame. congruence.
Qed.

(** X10: every target of a run for all targets comes from the listing of
    the configuration directory: from a regular file with the suffix
    [.json] that is not the pin file, under the name without the suffix
    and with the set read from that file, or from a directory, under its
    name and with the zero set.  Nothing else in the directory makes a
    target, and the pin file is never taken for a command set. *)
Theorem enumerateAll_provenance (cfgDir : string) (w w' : World)
    (l : list namedCommandSet) (t : list event) (infos : list FileInfo) :
  SortFunc_contract →
  (∀ fi, fi ∈ infos → fi_IsRegular fi = true → fi_IsDir fi = false) →
  enumerateAll cfgDir w = (Ok l, w', t) →
  readDir w cfgDir = inr infos →
  w' = w ∧ t = []
  ∧ ∀ e, e ∈ l →
      ∃ fi, fi ∈ infos
        ∧ ((fi_IsRegular fi = true
            ∧ HasSuffix (fi_Name fi) ".json" = true
            ∧ fi_Name fi ≠ pinnedVersionsFileName
            ∧ Name e = TrimSuffix (fi_Name fi) ".json"
            ∧ readSetFile w (filepath_Join [cfgDir; fi_Name fi]) = ReadOk (Set_ e))
           ∨ (fi_IsDir fi = true ∧ Name e = fi_Name fi ∧ Set_ e = zeroCommandSet)).
Proof.
  intros Hcontract Hmode Hrun Hdir.
  destruct (enumerateAll_sets _ _ _ _ _ _ Hrun Hdir) as (sets & Hmap & -> & -> & ->).
  do 2 (split; [done|]). intros e He.
  destruct (sortAndCompact_facts sets Hcontract) as (_ & _ & Hsub & _).
  destruct (mapM_loadEntry _ _ _ _ _ _ Hmap) as (_ & _ & _ & Hback).
  destruct (Hback e (Hsub e He)) as (fi & Hfi & Hload).
  apply list_elem_of_filter in Hfi as [Hkeep Hfi].
  exists fi. split; [done|].
  unfold loadEntry, bind, ReadSetFile, ret, panic in Hload. unfold keepEntry in Hkeep.
  destruct (fi_IsRegular fi) eqn:Hreg; simpl in *.
  - destruct (HasSuffix (fi_Name fi) ".json") eqn:Hsuf; simpl in *.
    + rewrite (Hmode fi Hfi Hreg), orb_false_r in Hkeep.
      apply negb_true_iff, String.eqb_neq in Hkeep.
      destruct (readSetFile w _) eqn:Hread; try discriminate Hload.
      injection Hload as <-. left. done.
    + rewrite (Hmode fi Hfi Hreg) in Hkeep. discriminate Hkeep.
  - destruct (fi_IsDir fi); [|discriminate Hkeep].
    injection Hload as <-. right. done.
Qed.

Lemma mapM_loadEntry_fails (cfgDir : string) (infos : list FileInfo) (w : World)
    (fi : FileInfo) :
  fi ∈ infos →
  fi_IsRegular fi = true → HasSuffix (fi_Name fi) ".json" = true →
  (∀ set, readSetFile w (filepath_Join [cfgDir; fi_Name fi]) ≠ ReadOk set) →
  ∃ err fi',
    mapM (loadEntry cfgDir) infos w = (Panic err, w, [])
    ∧ fi' ∈ infos
    ∧ (readSetFile w (filepath_Join [cfgDir; fi_Name fi']) = ReadNotExist err
       ∨ readSetFile w (filepath_Join [cfgDir; fi_Name fi']) = ReadOpenError err
       ∨ readSetFile w (filepath_Join [cfgDir; fi_Name fi']) = ReadDecodeError err).
Proof.
  intros Hfi Hreg Hsuf Hbad.
  induction infos as [|fi0 infos IH]; [by apply elem_of_nil in Hfi|].
  simpl mapM. unfold bind.
  destruct (loadEntry cfgDir fi0 w) as [[[s|err] w1] t1] eqn:Hone.
  - assert (w1 = w ∧ t1 = []) as [-> ->].
    { unfold loadEntry, bind, ReadSetFile, ret, panic in Hone.
      destruct (fi_IsRegular fi0 && HasSuffix (fi_Name fi0) ".json").
      - simpl in Hone.
        destruct (readSetFile w (filepath_Join [cfgDir; fi_Name fi0])); try discriminate Hone; by injection Hone as _ <- <-.
      - destruct (fi_IsDir fi0); by injection Hone as _ <- <-. }
    apply elem_of_cons in Hfi as [->|Hfi].
    + exfalso. unfold loadEntry, bind, ReadSetFile, ret, panic in Hone.
      rewrite Hreg, Hsuf in Hone. simpl in Hone.
      destruct (readSetFile w (filepath_Join [cfgDir; fi_Name fi0])) eqn:Hread; try discriminate Hone.
      by apply (Hbad a).
    + destruct (IH Hfi) as (err & fi' & -> & Hfi' & Hwhy).
      exists err, fi'. split; [done|]. split; [by right|done].
  - unfold loadEntry, bind, ReadSetFile, ret, panic in Hone.
    destruct (fi_IsRegular fi0 && HasSuffix (fi_Name fi0) ".json").
    + simpl in Hone.
      destruct (readSetFile w (filepath_Join [cfgDir; fi_Name fi0])) eqn:Hread; try discriminate Hone;
        injection Hone as <- <- <-; exists e, fi0;
        (split; [done|]); (split; [by left|]); tauto.
    + destruct (fi_IsDir fi0); discriminate Hone.
Qed.

(** X11: one command set file that cannot be read stops a run for all
    targets: when the listing has a regular [.json] file other than the pin
    file whose reading fails, the enumeration panics with the error of a
    file of the listing, having done nothing, whatever the other files
    hold. *)
Theorem enumerateAll_broken_file_is_fatal (cfgDir : string) (w : World)
    (infos : list FileInfo) (fi : FileInfo) :
  readDir w cfgDir = inr infos →
  fi ∈ infos →
  fi_IsRegular fi = true →
  HasSuffix (fi_Name fi) ".json" = true →
  fi_Name fi ≠ pinnedVersionsFileName →
  (∀ set, readSetFile w (filepath_Join [cfgDir; fi_Name fi]) ≠ ReadOk set) →
  ∃ err fi',
    enumerateAll cfgDir w = (Panic err, w, [])
    ∧ fi' ∈ infos
    ∧ (readSetFile w (filepath_Join [cfgDir; fi_Name fi']) = ReadNotExist err
       ∨ readSetFile w (filepath_Join [cfgDir; fi_Name fi']) = ReadOpenError err
       ∨ readSetFile w (filepath_Join [cfgDir; fi_Name fi']) = ReadDecodeError err).
Proof.
  intros Hdir Hfi Hreg Hsuf Hpin Hbad.
  assert (Hkept : fi ∈ filter (λ fi, keepEntry fi = true) infos).
  { apply list_elem_of_filter. split; [|done]. unfold keepEntry.
    rewrite Hreg, Hsuf. simpl.
    destruct (String.eqb_spec (fi_Name fi) pinnedVersionsFileName); [done|reflexivity]. }
  destruct (mapM_loadEntry_fails cfgDir _ w fi Hkept Hreg Hsuf Hbad)
    as (err & fi' & Hmap & Hfi' & Hwhy).
  exists err, fi'. split; [|split; [|done]].
  - unfold enumerateAll, bind, ReadDir. by rewrite Hdir, Hmap.
  - by apply list_elem_of_filter in Hfi' as [_ ?].
Qed.

(** *** The comparison of the sort and the check of the pins *)

(** X12: the comparison function handed to [slices.SortFunc] is no
    three-way comparison (an entry with the zero set compares as greater
    than itself), but its "less" is a strict weak order, as the sort needs,
    and two entries of which neither is less than the other have the same
    name, so after the sort the entries of a name are neighbours. *)
Theorem compareSets_strict_weak :
  strictWeak compareSets
  ∧ (∀ a, compareSets a a = if IsZero (Set_ a) then 1%Z else 0%Z)
  ∧ (∀ a b, ¬ lessBy compareSets a b → ¬ lessBy compareSets b a → Name a = Name b).
Proof.
  split; [split; [exact compareSets_asym|exact compareSets_cotrans]|]. split.
  - intros a. unfold compareSets, cmp_Compare. rewrite compare_refl.
    rewrite decide_False by (intros Hne; by apply Hne).
    by destruct (IsZero (Set_ a)).
  - intros a b Hab Hba. unfold lessBy in *. rewrite compareSets_less in Hab, Hba.
    destruct (String.compare (Name a) (Name b)) eqn:Hcmp.
    + by apply String.compare_eq_iff.
    + destruct Hab. by left.
    + apply compare_Gt_Lt in Hcmp. destruct Hba. by left.
Qed.

(** X13: whether the check of the pinned versions panics does not depend
    on the order in which the entries are visited; and when it panics, the
    name in the message is the key of an entry that has a stray space in
    its key or its value. *)
Theorem pin_check_order (l1 l2 : list (string * string)) :
  l1 ≡ₚ l2 →
  (checkPinnedEntries l1 = None ↔ checkPinnedEntries l2 = None)
  ∧ (∀ err, checkPinnedEntries l1 = Some err →
       ∃ k v, (k, v) ∈ l2 ∧ untrimmed (k, v)
              ∧ err = Errorf "pinned version %q has space prefix and/or suffix in name or version"
                        [k]).
Proof.
  intros Hperm. split.
  - pose proof (checkPinnedEntries_order l1 l2 Hperm) as Hiff.
    destruct (checkPinnedEntries l1), (checkPinnedEntries l2); split; try done;
      intros _; exfalso.
    + destruct (proj1 Hiff ltac:(by eexists)) as [? [=]].
    + destruct (proj2 Hiff ltac:(by eexists)) as [? [=]].
  - intros err Herr.
    assert (Hfound : ∃ k v, (k, v) ∈ l1 ∧ untrimmed (k, v)
              ∧ err = Errorf "pinned version %q has space prefix and/or suffix in name or version"
                        [k]).
    { clear Hperm. induction l1 as [|[k v] l1 IH]; [discriminate Herr|].
      simpl in Herr. destruct (decide (untrimmed (k, v))) as [Hbad|Hgood].
      - injection Herr as <-. exists k, v. split; [by left|done].
      - destruct (IH Herr) as (k' & v' & Hin & Hbad & ->).
        exists k', v'. split; [by right|done]. }
    destruct Hfound as (k & v & Hin & Hbad & ->).
    exists k, v. split; [by rewrite <- Hperm|done].
Qed.

(** *** A run for one target, and what [Exec] reads of a command set *)

Lemma enumerateOne_shape (cfgDir target : string) (w : World) :
  ∃ r t,
    enumerateOne cfgDir target w = (r, w, t)
    ∧ (∀ ev, ev ∈ t → is_exec ev = false)
    ∧ ∀ sets, r = Ok sets → ∃ set, sets = [{| Name := target; Set_ := set |}].
Proof.
  unfold enumerateOne, ReadSetFile, Stat, bind, ret, panic.
  destruct (readSetFile w (filepath_Join [cfgDir; target +:+ ".json"])) as [e|e|e|set].
  - destruct (os_Stat w (filepath_Join [cfgDir; target])) as [s|].
    + destruct (fi_IsDir s); simpl; eexists _, _; (split; [reflexivity|]); split.
      * by intros ev ->%list_elem_of_singleton.
      * intros sets [= <-]. by eexists.
      * by intros ev ->%list_elem_of_singleton.
      * intros sets [=].
    + simpl. eexists _, _. split; [reflexivity|]. split.
      * by intros ev ->%list_elem_of_singleton.
      * intros sets [=].
  - eexists _, _. split; [reflexivity|]. split; [by intros ev ?%elem_of_nil|intros sets [=]].
  - eexists _, _. split; [reflexivity|]. split; [by intros ev ?%elem_of_nil|intros sets [=]].
  - eexists _, _. split; [reflexivity|]. split; [by intros ev ?%elem_of_nil|].
    intros sets [= <-]. by eexists.
Qed.

Lemma main_entries (cfgDir target : string) (cmd : command) (fl : flags)
    (w : World) (n : string) (k : command) (v : string) (vb : bool) :
  target ≠ "" →
  EvExec n k v vb ∈ snd (main cfgDir target cmd fl w) →
  ∃ pinnedVersions set,
    EvExec n k v vb
    ∈ snd (dispatch cmd pinnedVersions fl
             [newCommandExecutor cfgDir {| Name := target; Set_ := set |}] w).
Proof.
  intros Htarget Hev. unfold main, bind in Hev.
  rewrite decide_True in Hev by done.
  destruct (enumerateOne_shape cfgDir target w) as (r & t & Hone & Hquiet & Hsets).
  assert (Hload : ∃ rp, loadPinnedVersions cfgDir w = (rp, w, [])).
  { unfold loadPinnedVersions, ReadPinFile, bind, ret, panic.
    destruct (readPinFile w _); by eexists. }
  destruct Hload as (rp & Hload). rewrite Hload in Hev.
  destruct rp as [pins|e]; [|by apply elem_of_nil in Hev].
  assert (Hcheck : ∃ rc, validatePinnedVersions pins w = (rc, w, [])).
  { unfold validatePinnedVersions, ret, panic.
    destruct (checkPinnedEntries _); by eexists. }
  destruct Hcheck as (rc & Hcheck). rewrite Hcheck in Hev.
  destruct rc as [[]|e]; [|by apply elem_of_nil in Hev].
  rewrite Hone in Hev.
  destruct r as [sets|e].
  - destruct (Hsets sets eq_refl) as (set & ->). exists pins, set.
    simpl map in Hev.
    destruct (dispatch cmd pins fl _ w) as [[r2 w2] t2]. simpl in Hev. simpl.
    apply elem_of_app in Hev as [Hev|Hev]; [by specialize (Hquiet _ Hev)|exact Hev].
  - simpl in Hev. by specialize (Hquiet _ Hev).
Qed.

(** X14: a run for a named target calls [Exec] for that target only, with
    the operations of the run: the pin file and the other entries of the
    configuration directory never make it run anything else. *)
Theorem main_single_target (cfgDir target : string) (cmd : command) (fl : flags)
    (w : World) (n : string) (k : command) (v : string) (vb : bool) :
  target ≠ "" →
  EvExec n k v vb ∈ snd (main cfgDir target cmd fl w) →
  n = target ∧ mayCall cmd k = true.
Proof.
  intros Htarget Hev.
  destruct (main_entries _ _ _ _ _ _ _ _ _ Htarget Hev) as (pins & set & Hin).
  destruct (dispatch_entries _ _ _ _ _ _ _ _ _ Hin) as [Hmay Hname].
  split; [|exact Hmay]. simpl in Hname. by apply list_elem_of_singleton in Hname.
Qed.

(** X15: of a command set [Exec] reads the elements of the template of the
    operation only: two executors with the same directory and target name
    whose selected templates have the same elements behave alike.  The
    other three templates play no part, and a nil template and an empty
    one are the same to it: both send it to the scripts. *)
Theorem Exec_reads_selected_template (e1 e2 : commandExecutor) (kind : command)
    (ver : string) (verbose : bool) (w : World) :
  dir e1 = dir e2 →
  Name (commandSet_ e1) = Name (commandSet_ e2) →
  elems (Select (Set_ (commandSet_ e1)) kind) = elems (Select (Set_ (commandSet_ e2)) kind) →
  Exec e1 kind ver verbose w = Exec e2 kind ver verbose w.
Proof.
  intros Hdir Hname Helems.
  assert (Hlen : len (Select (Set_ (commandSet_ e1)) kind)
                 = len (Select (Set_ (commandSet_ e2)) kind)).
  { destruct (Select (Set_ (commandSet_ e1)) kind), (Select (Set_ (commandSet_ e2)) kind);
      simpl in *; by subst. }
  unfold Exec, resolve, candidates. by rewrite Hdir, Hname, Helems, Hlen.
Qed.

End RunFacts.


(** ** The theorems at work on the small platform *)

(** A template, a script found at the second suffix, and no script at all. *)
Lemma Exec_resolves_witness :
  @Exec Demo.platform (Demo.tool "a") commandUpdate "1.1" false Demo.shelf
  = @withTrace Demo.platform _ [EvExec "a" commandUpdate "1.1" false]
      (@Run Demo.platform ["update-a"; "--to=1.1"]
         ["HOME=/root"; "OS=linux"; "ARCH=amd64"; "VER=1.1"] false) Demo.shelf
  ∧ @Exec Demo.platform (Demo.bare "x") commandVer "" false Demo.fresh
    = @withTrace Demo.platform _
        [EvExec "x" commandVer "" false; EvStat "/cfg/x/ver"; EvStat "/cfg/x/ver.sh"]
        (@Run Demo.platform ["/cfg/x/ver.sh"] ["HOME=/root"; "OS=linux"; "ARCH=amd64"] false)
        Demo.fresh
  ∧ @Exec Demo.platform (Demo.bare "x") commandUpdate "2.0" true Demo.fresh
    = (Ok ("", Some (Errorf "command not found" [])), Demo.fresh,
       [EvExec "x" commandUpdate "2.0" true;
        EvStat "/cfg/x/update"; EvStat "/cfg/x/update.sh"; EvStat "/cfg/x/update.exe";
        EvStat "/cfg/x/update.bat"; EvStat "/cfg/x/update.ps1"]).
Proof.
  split; [|split].
  - pose proof (@Exec_resolves Demo.platform (Demo.tool "a") commandUpdate "1.1" false
                  Demo.shelf) as (Htemplate & _ & _).
    apply Htemplate. simpl. lia.
  - pose proof (@Exec_resolves Demo.platform (Demo.bare "x") commandVer "" false
                  Demo.fresh) as (_ & Hdiscover & _).
    destruct (Hdiscover eq_refl) as (_ & Hfound & _).
    apply (Hfound 1 "/cfg/x/ver.sh").
    + reflexivity.
    + by eexists.
    + intros j q Hj Hq. destruct j as [|j]; [|lia].
      injection Hq as <-. reflexivity.
  - pose proof (@Exec_resolves Demo.platform (Demo.bare "x") commandUpdate "2.0" true
                  Demo.fresh) as (_ & Hdiscover & _).
    destruct (Hdiscover eq_refl) as (_ & _ & Hnone).
    apply Hnone. intros p Hp.
    change (p ∈ ["/cfg/x/update"; "/cfg/x/update.sh"; "/cfg/x/update.exe";
                 "/cfg/x/update.bat"; "/cfg/x/update.ps1"]) in Hp.
    rewrite !elem_of_cons, elem_of_nil in Hp.
    destruct Hp as [->|[->|[->|[->|[->|[]]]]]]; reflexivity.
Defined.


(** C2 (as stated): the pin mapping has an entry for [x], the empty
    string, which passes the check of the pinned versions; the version the
    update decision uses is the latest version 1.0, not the pinned one. *)
Lemma empty_pin_does_not_win :
  ({["x" := ""]} : gmap string string) !! "x" = Some ""
  ∧ @checkPinnedEntries Demo.platform (map_to_list ({["x" := ""]} : gmap string string)) = None
  ∧ effectiveVersion {["x" := ""]} {["x" := "1.0"]} "x" = "1.0"
  ∧ @planOne Demo.platform {["x" := ""]} {["x" := "0.9"]} {["x" := "1.0"]} []
      (Demo.bare "x") Demo.fresh
    = (Ok [{| tgt := "1.0"; executor := Demo.bare "x" |}], Demo.fresh,
       [EvPrintf "%q: %s -> %s" [VStr "x"; VStr "0.9"; VStr "1.0"]; EvPrintf "\n" []]).
Proof. vm_compute. auto. Qed.

(** [b] is pinned to 1.9, [a] is not pinned and its [checklatest] prints 1.1. *)
Lemma effective_version_of_update_witness :
  effectiveVersion {["b" := "1.9"]} {["a" := "1.1"; "b" := "2.0"]} "b" = "1.9"
  ∧ effectiveVersion {["b" := "1.9"]} {["a" := "1.1"; "b" := "2.0"]} "a"
    = Demo.trimSpace " 1.1".
Proof.
  eassert (Hgather : @gatherAll Demo.platform Demo.quiet
                       ([] ++ Demo.tool "a" :: [Demo.tool "b"]) Demo.shelf
                     = (Ok ({["a" := "1.0"; "b" := "2.0"]}, {["a" := "1.1"; "b" := "2.0"]}),
                        _, _)).
  { vm_compute. reflexivity. }
  pose proof Hgather as Hgather'.
  change ([] ++ Demo.tool "a" :: [Demo.tool "b"])
    with ([Demo.tool "a"] ++ Demo.tool "b" :: []) in Hgather'.
  assert (Hnodup : NoDup (names ([] ++ Demo.tool "a" :: [Demo.tool "b"]))).
  { apply (bool_decide_unpack _). vm_compute. exact I. }
  split.
  - apply (proj1 (@effective_version_of_update Demo.platform {["b" := "1.9"]} Demo.quiet
                    [Demo.tool "a"] [] (Demo.tool "b") _ _ _ _ _ Hnodup Hgather') "1.9");
      [reflexivity|discriminate].
  - destruct (proj1 (proj2 (@effective_version_of_update Demo.platform {["b" := "1.9"]}
                              Demo.quiet [] [Demo.tool "b"] (Demo.tool "a") _ _ _ _ _
                              Hnodup Hgather)))
      as (maps0 & w0 & t0 & out1 & w1 & t1 & out & w2 & t2 & Hpre & HVer & HCheck & Htarget).
    { left. reflexivity. }
    injection Hpre as <- <- <-.
    vm_compute in HVer. injection HVer as <- <- <-.
    vm_compute in HCheck. injection HCheck as <- <- <-.
    exact Htarget.
Defined.

(** [b] is up to date: no [update] is called for it. *)
Lemma update_skips_current_witness :
  Forall (λ ev, is_update_of "b" ev = false)
    (snd (@updateAll Demo.platform ∅ Demo.quiet [Demo.tool "a"; Demo.tool "b"] Demo.shelf)).
Proof.
  apply Forall_forall.
  eassert (Hgather : @gatherAll Demo.platform Demo.quiet [Demo.tool "a"; Demo.tool "b"] Demo.shelf
                     = (Ok (_, _), _, _)).
  { vm_compute. reflexivity. }
  assert (Hin : Demo.tool "b" ∈ [Demo.tool "a"; Demo.tool "b"]) by (right; left).
  pose proof (@update_skips_current Demo.platform ∅ Demo.quiet
                [Demo.tool "a"; Demo.tool "b"] Demo.shelf (Demo.tool "b") Hin) as Hskip.
  cbv zeta in Hskip. rewrite Hgather in Hskip.
  destruct Hskip as (Hnone & _ & _); [vm_compute; reflexivity|].
  exact Hnone.
Defined.

(** [a] is installed already; [x] is not and is installed at its latest version. *)
Lemma install_step_witness :
  (∃ w1 t, @installOne Demo.platform ∅ Demo.quiet (Demo.tool "a") Demo.shelf = (Ok tt, w1, t))
  ∧ ∃ r w3 t1 t2 tmid t3 tend,
      @installOne Demo.platform ∅ Demo.quiet (Demo.bare "x") Demo.fresh
      = (r, w3, EvPrintf "installing %q...\n\n" [VStr "x"] :: t1 ++ t2 ++ tmid ++ t3 ++ tend)
      ∧ hd_error t3 = Some (EvExec "x" commandInstall "2.3.1" false)
      ∧ r = Ok tt.
Proof.
  split.
  - eassert (HVer : @Exec Demo.platform (Demo.tool "a") commandVer "" false Demo.shelf
                    = (Ok (_, None), _, _)) by (vm_compute; reflexivity).
    destruct (@install_step Demo.platform ∅ Demo.quiet _ _ _ _ _ _ HVer) as (Hskip & _ & _).
    destruct (Hskip eq_refl) as [Hrun _]. eexists _, _. exact Hrun.
  - eassert (HVer : @Exec Demo.platform (Demo.bare "x") commandVer "" false Demo.fresh
                    = (Ok (_, Some _), _, _)) by (vm_compute; reflexivity).
    eassert (HCheck : @Exec Demo.platform (Demo.bare "x") commandChecklatest "" false Demo.fresh
                      = (Ok (_, None), _, _)) by (vm_compute; reflexivity).
    match type of HCheck with
    | _ = (_, ?w2, _) =>
        eassert (HInst : @Exec Demo.platform (Demo.bare "x") commandInstall "2.3.1" false w2
                         = (Ok (_, None), _, EvExec "x" commandInstall "2.3.1" false :: _))
          by (vm_compute; reflexivity)
    end.
    destruct (@install_step Demo.platform ∅ Demo.quiet _ _ _ _ _ _ HVer) as (_ & Hinstall & _).
    destruct (Hinstall ltac:(discriminate) _ _ _ _ HCheck _ _ _ _ HInst)
      as (r & tmid & tend & Hrun & _ & Hr & _).
    eexists r, _, _, _, tmid, _, tend. split; [exact Hrun|]. split; [reflexivity|exact Hr].
Defined.

(** C4 (as stated): [ver] and [checklatest] both fail for the target [x],
    yet [install] is not called with the empty version: [x] is pinned to
    1.0 and the pinned version is what [install] gets. *)
Lemma install_takes_pinned_version :
  @Exec Demo.platform (Demo.bare "x") commandVer "" false Demo.offline
  = (Ok ("", Some (ErrExternal "exit status 1")), Demo.offline,
     [EvExec "x" commandVer "" false; EvStat "/cfg/x/ver"; EvStat "/cfg/x/ver.sh";
      EvRun ["/cfg/x/ver.sh"] ["HOME=/root"; "OS=linux"; "ARCH=amd64"] false])
  ∧ @Exec Demo.platform (Demo.bare "x") commandChecklatest "" false Demo.offline
    = (Ok ("", Some (ErrExternal "exit status 1")), Demo.offline,
       [EvExec "x" commandChecklatest "" false; EvStat "/cfg/x/checklatest";
        EvRun ["/cfg/x/checklatest"] ["HOME=/root"; "OS=linux"; "ARCH=amd64"] false])
  ∧ List.filter is_exec
      (snd (@installOne Demo.platform {["x" := "1.0"]} Demo.quiet (Demo.bare "x") Demo.offline))
    = [EvExec "x" commandVer "" false;
       EvExec "x" commandChecklatest "" false;
       EvExec "x" commandInstall "1.0" false].
Proof. vm_compute. auto. Qed.

(** A failing [ver], a failing [checklatest] and a failing [update]; in the
    last run the update of [a] was made before the panic and stays. *)
Lemma update_failures_are_fatal_witness :
  @dispatch Demo.platform commandUpdate ∅ Demo.forced [Demo.bare "x"] Demo.fresh
  = (Panic (Wrapf "ver %q: %w" ["x"] (ErrExternal "exit status 1")), Demo.fresh,
     [EvExec "x" commandVer "" false; EvStat "/cfg/x/ver"; EvStat "/cfg/x/ver.sh";
      EvRun ["/cfg/x/ver.sh"] ["HOME=/root"; "OS=linux"; "ARCH=amd64"] false])
  ∧ fst (fst (@dispatch Demo.platform commandUpdate ∅ Demo.forced [Demo.tool "d"] Demo.shelf))
    = Panic (Wrapf "checklatest %q: %w" ["d"] (ErrExternal "exit status 1"))
  ∧ ∃ w3 t,
      @dispatch Demo.platform commandUpdate ∅ Demo.forced
        [Demo.tool "a"; Demo.tool "b"; Demo.tool "c"] Demo.shelf
      = (Panic (Wrapf "updating %q: %w" ["c"] (ErrExternal "exit status 1")), w3, t)
      ∧ last (Demo.applied w3) = Some ["update-a"; "--to=1.1"].
Proof.
  split; [|split].
  - pose proof (@update_failures_are_fatal Demo.platform ∅ Demo.quiet [Demo.bare "x"]
                  Demo.fresh) as (Hflag & Hver & _ & _).
    rewrite (Hflag Demo.forced eq_refl).
    apply (Hver [] (Demo.bare "x") [] (∅, ∅) Demo.fresh [] "").
    + reflexivity.
    + reflexivity.
    + vm_compute. reflexivity.
  - pose proof (@update_failures_are_fatal Demo.platform ∅ Demo.forced [Demo.tool "d"]
                  Demo.shelf) as (_ & _ & Hcheck & _).
    eassert (HVer : @Exec Demo.platform (Demo.tool "d") commandVer "" false Demo.shelf
                    = (Ok (_, None), _, _)) by (vm_compute; reflexivity).
    match type of HVer with
    | _ = (_, ?w1, _) =>
        eassert (HCheck : @Exec Demo.platform (Demo.tool "d") commandChecklatest "" false w1
                          = (Ok (_, Some (ErrExternal "exit status 1")), _, _))
          by (vm_compute; reflexivity)
    end.
    rewrite (Hcheck [] (Demo.tool "d") [] (∅, ∅) Demo.shelf [] _ _ _ _ _ _ _
               eq_refl eq_refl HVer HCheck).
    reflexivity.
  - pose proof (@update_failures_are_fatal Demo.platform ∅ Demo.forced
                  [Demo.tool "a"; Demo.tool "b"; Demo.tool "c"] Demo.shelf)
      as (_ & _ & _ & Hexec).
    eassert (Hgather : @gatherAll Demo.platform Demo.forced
                         [Demo.tool "a"; Demo.tool "b"; Demo.tool "c"] Demo.shelf
                       = (Ok (_, _), _, _)) by (vm_compute; reflexivity).
    match type of Hgather with
    | _ = (Ok (?cur, ?lat), ?w1, _) =>
        eassert (Hplan : @planAll Demo.platform ∅ cur lat
                           [Demo.tool "a"; Demo.tool "b"; Demo.tool "c"] w1
                         = (Ok ([Demo.queued "a" "1.1"] ++ Demo.queued "c" "3.1" :: []), w1, _))
          by (vm_compute; reflexivity);
        eassert (Hpre : forEach (@updateOne Demo.platform Demo.forced) [Demo.queued "a" "1.1"] w1
                        = (Ok tt, _, _)) by (vm_compute; reflexivity)
    end.
    match type of Hpre with
    | _ = (_, ?w2, _) =>
        eassert (HUp : @Exec Demo.platform (executor (Demo.queued "c" "3.1")) commandUpdate
                         (tgt (Demo.queued "c" "3.1")) false w2
                       = (Ok (_, Some (ErrExternal "exit status 1")), _, _))
          by (vm_compute; reflexivity)
    end.
    eexists _, _. split.
    + exact (Hexec _ _ _ _ _ _ _ _ _ _ _ _ _ _ Hgather Hplan Hpre HUp).
    + vm_compute. reflexivity.
Defined.

(** [x] is made by a directory and by a file: the entry of the file stays. *)
Lemma sortAndCompact_keeps_file_entry_witness :
  {| Name := "x"; Set_ := Demo.scripted ["x-version"] |}
  ∈ @sortAndCompact Demo.platform
      [{| Name := "x"; Set_ := zeroCommandSet |};
       {| Name := "y"; Set_ := zeroCommandSet |};
       {| Name := "x"; Set_ := Demo.scripted ["x-version"] |}]
  ∧ @enumerateAll Demo.platform "/cfg" Demo.configured
    = (Ok [{| Name := "x"; Set_ := Demo.scripted ["x-version"] |};
           {| Name := "y"; Set_ := zeroCommandSet |}], Demo.configured, [])
  ∧ {| Name := TrimSuffix "x.json" ".json"; Set_ := Demo.scripted ["x-version"] |}
    ∈ [{| Name := "x"; Set_ := Demo.scripted ["x-version"] |};
       {| Name := "y"; Set_ := zeroCommandSet |}].
Proof.
  assert (Hcontract : @SortFunc_contract Demo.platform).
  { intros cmp [Hasym Hcotrans] l. split.
    - apply insertionSort_perm.
    - by apply insertionSort_sorted. }
  destruct (@sortAndCompact_keeps_file_entry Demo.platform
              [{| Name := "x"; Set_ := zeroCommandSet |};
               {| Name := "y"; Set_ := zeroCommandSet |};
               {| Name := "x"; Set_ := Demo.scripted ["x-version"] |}] Hcontract)
    as (_ & _ & _ & _ & Hfile & Hall).
  assert (Hrun : @enumerateAll Demo.platform "/cfg" Demo.configured
                 = (Ok [{| Name := "x"; Set_ := Demo.scripted ["x-version"] |};
                        {| Name := "y"; Set_ := zeroCommandSet |}], Demo.configured, []))
    by (vm_compute; reflexivity).
  split; [|split; [exact Hrun|]].
  - apply Hfile.
    + right. right. left.
    + intros other Hother Hname.
      rewrite !elem_of_cons, elem_of_nil in Hother.
      destruct Hother as [->|[->|[->|[]]]]; [by right|by right|by left].
  - destruct (Hall "/cfg" Demo.configured _ _ _ Hrun) as (_ & _ & Hkept).
    apply (Hkept (Demo.listing Demo.configured)
             {| fi_Name := "x.json"; fi_IsRegular := true; fi_IsDir := false |}).
    + reflexivity.
    + do 3 right. left.
    + reflexivity.
    + reflexivity.
    + discriminate.
    + reflexivity.
Defined.

(** Scenario E, and a run without pin file. *)
Lemma pinned_versions_are_checked_witness :
  (∃ err, @main Demo.platform "/cfg" "" commandVer Demo.forced Demo.mispinned
          = (Panic err, Demo.mispinned, []))
  ∧ @loadPinnedVersions Demo.platform "/cfg" Demo.fresh = (Ok ∅, Demo.fresh, []).
Proof.
  split.
  - pose proof (@pinned_versions_are_checked Demo.platform "/cfg" "" commandVer Demo.forced
                  Demo.mispinned) as (Hbad & _).
    apply (Hbad {[" x" := "1.0"]} " x" "1.0").
    + reflexivity.
    + vm_compute. reflexivity.
    + left. vm_compute. discriminate.
  - pose proof (@pinned_versions_are_checked Demo.platform "/cfg" "" commandVer Demo.forced
                  Demo.fresh) as (_ & Hmissing & _).
    by destruct (Hmissing (ErrExternal "no such file") eq_refl) as [Hload _].
Defined.

(** The [ver] of [x] fails having printed nothing: its entry is the empty string. *)
Lemma query_forced_reports_all_witness :
  ∃ m w' t,
    @dispatch Demo.platform commandVer ∅ Demo.forced [Demo.bare "x"] Demo.fresh
    = (Ok tt, w', t ++ [EvPrintf "%s\n" [VMap m]])
    ∧ m !! "x" = Some "".
Proof.
  destruct (@query_forced_reports_all Demo.platform commandVer ∅ Demo.forced
              [Demo.bare "x"] Demo.fresh (or_introl eq_refl) eq_refl)
    as (m & w' & t & Hrun & _ & Hentries).
  exists m, w', t. split; [exact Hrun|].
  assert (Hnodup : NoDup (names [Demo.bare "x"])) by (apply (bool_decide_unpack _); vm_compute; exact I).
  destruct (Hentries Hnodup [] (Demo.bare "x") [] eq_refl)
    as (m1 & w1 & t1 & out & err & w2 & t2 & Hpre & HExec & Hm).
  injection Hpre as <- <- <-.
  vm_compute in HExec. injection HExec as <- <- <- <-.
  exact Hm.
Defined.

(** [-dir /cfg -f x ver] goes on to the operations; with [-new t] and no
    [-dir] the target is scaffolded under the user's directory, whatever
    the arguments. *)
Lemma program_operates_witness :
  @program Demo.platform Demo.host Demo.inCfg ["x"; "ver"] Demo.fresh
  = Operated (@main Demo.platform "/cfg" "x" commandVer Demo.forced Demo.fresh)
  ∧ @program Demo.platform Demo.host
      {| opt_dir := ""; opt_v := false; opt_f := false; opt_n := "t" |}
      ["x"; "ver"; "more"] Demo.fresh
    = Scaffolded (@scaffold Demo.platform Demo.host "/home/u/.config/ngpkgmgr" "t" Demo.fresh).
Proof.
  split.
  - apply (proj1 (@program_operates Demo.platform Demo.host Demo.inCfg ["x"; "ver"] Demo.fresh
                    (@main Demo.platform "/cfg" "x" commandVer Demo.forced Demo.fresh))).
    exists "/cfg", "x", commandVer.
    split; [reflexivity|]. split; [reflexivity|]. split; [by left|reflexivity].
  - apply (proj2 (proj2 (@program_operates Demo.platform Demo.host
                           {| opt_dir := ""; opt_v := false; opt_f := false; opt_n := "t" |}
                           ["x"; "ver"; "more"] Demo.fresh
                           (Ok tt, Demo.fresh, [])))).
    + reflexivity.
    + discriminate.
Defined.

(** Scaffolding [t] where nothing of it exists has been at the six paths. *)
Lemma scaffold_paths_witness :
  Forall (λ p, p ∈ fsPath <$> snd (@scaffold Demo.platform Demo.host "/cfg" "t" Demo.fresh))
    ["/cfg/t.json"; "/cfg/t"; "/cfg/t/ver.sh"; "/cfg/t/checklatest.sh";
     "/cfg/t/install.sh"; "/cfg/t/update.sh"].
Proof.
  destruct (@scaffold_paths Demo.platform Demo.host "/cfg" "t" Demo.fresh) as (_ & Hall & _).
  apply Forall_forall. intros p Hp. apply Hall.
  - vm_compute. reflexivity.
  - exact Hp.
Defined.

(** Scaffolding [t] a second time. *)
Lemma scaffold_existing_is_noop_witness :
  @scaffold Demo.platform Demo.host "/cfg" "t" Demo.scaffolded
  = (Ok tt, Demo.scaffolded,
     [FsOpenExcl "/cfg/t.json" false; FsMkdir "/cfg/t";
      FsOpenExcl "/cfg/t/ver.sh" false; FsOpenExcl "/cfg/t/checklatest.sh" false;
      FsOpenExcl "/cfg/t/install.sh" false; FsOpenExcl "/cfg/t/update.sh" false]).
Proof.
  apply (@scaffold_existing_is_noop Demo.platform Demo.host "/cfg" "t" Demo.scaffolded).
  - vm_compute. reflexivity.
  - vm_compute. reflexivity.
  - intros []; vm_compute; reflexivity.
Defined.


(** The update of [a] is a call of an [update] run, for one of its targets. *)
Lemma dispatch_operations_witness :
  EvExec "a" commandUpdate "1.1" false
  ∈ snd (@dispatch Demo.platform commandUpdate ∅ Demo.quiet [Demo.tool "a"; Demo.tool "b"]
           Demo.shelf)
  ∧ mayCall commandUpdate commandUpdate = true
  ∧ "a" ∈ names [Demo.tool "a"; Demo.tool "b"].
Proof.
  assert (Hin : EvExec "a" commandUpdate "1.1" false
                ∈ snd (@dispatch Demo.platform commandUpdate ∅ Demo.quiet
                         [Demo.tool "a"; Demo.tool "b"] Demo.shelf)).
  { apply list_elem_of_In. vm_compute. repeat (first [left; reflexivity|right]). }
  split; [exact Hin|].
  exact (@dispatch_operations Demo.platform commandUpdate ∅ Demo.quiet
           [Demo.tool "a"; Demo.tool "b"] Demo.shelf _ _ _ _ Hin).
Defined.

(** The [ver] of [x] fails and that of [a] cannot be started: both are
    visited all the same. *)
Lemma install_forced_visits_all_witness :
  ∃ w' t,
    @dispatch Demo.platform commandInstall ∅ Demo.forced [Demo.bare "x"; Demo.tool "a"] Demo.fresh
    = (Ok tt, w', t)
    ∧ visited commandVer t = ["x"; "a"].
Proof.
  exact (@install_forced_visits_all Demo.platform ∅ Demo.forced
           [Demo.bare "x"; Demo.tool "a"] Demo.fresh eq_refl).
Defined.

(** [a] is behind and [b] is not: four questions, then one update. *)
Lemma update_schedule_witness :
  ∃ w' t,
    @updateAll Demo.platform ∅ Demo.quiet [Demo.tool "a"; Demo.tool "b"] Demo.shelf
    = (Ok tt, w', t)
    ∧ execEntries t
      = [EvExec "a" commandVer "" false; EvExec "a" commandChecklatest "" false;
         EvExec "b" commandVer "" false; EvExec "b" commandChecklatest "" false;
         EvExec "a" commandUpdate "1.1" false].
Proof.
  eassert (Hrun : @updateAll Demo.platform ∅ Demo.quiet [Demo.tool "a"; Demo.tool "b"]
                    Demo.shelf = (Ok tt, _, _)) by (vm_compute; reflexivity).
  eexists _, _. split; [exact Hrun|].
  destruct (@update_schedule Demo.platform ∅ Demo.quiet [Demo.tool "a"; Demo.tool "b"]
              Demo.shelf _ _ Hrun) as (cur & lat & w1 & t1 & Hgather & Hentries).
  rewrite Hentries. vm_compute in Hgather. injection Hgather as <- <- <- <-.
  vm_compute. reflexivity.
Defined.

(** [x] is named by the file [x.json] and [y] by a directory. *)
Lemma enumeration_modes_agree_witness :
  (@enumerateOne Demo.listed "/cfg" "x" Demo.configured
   = (Ok [{| Name := "x"; Set_ := Demo.scripted ["x-version"] |}], Demo.configured, [])
   ∧ {| Name := "x"; Set_ := Demo.scripted ["x-version"] |}
     ∈ [{| Name := "x"; Set_ := Demo.scripted ["x-version"] |};
        {| Name := "y"; Set_ := zeroCommandSet |}])
  ∧ (@enumerateOne Demo.listed "/cfg" "y" Demo.configured
     = (Ok [{| Name := "y"; Set_ := zeroCommandSet |}], Demo.configured, [EvStat "/cfg/y"])
     ∧ {| Name := "y"; Set_ := zeroCommandSet |}
       ∈ [{| Name := "x"; Set_ := Demo.scripted ["x-version"] |};
          {| Name := "y"; Set_ := zeroCommandSet |}]).
Proof.
  assert (Hcontract : @SortFunc_contract Demo.listed).
  { intros cmp [Hasym Hcotrans] l. split.
    - apply insertionSort_perm.
    - by apply insertionSort_sorted. }
  assert (Hrun : @enumerateAll Demo.listed "/cfg" Demo.configured
                 = (Ok [{| Name := "x"; Set_ := Demo.scripted ["x-version"] |};
                        {| Name := "y"; Set_ := zeroCommandSet |}], Demo.configured, []))
    by (vm_compute; reflexivity).
  split.
  - destruct (@enumeration_modes_agree Demo.listed "/cfg" "x" Demo.configured _ _ _
                (Demo.listing Demo.configured) Hcontract Hrun eq_refl) as [Hfile _].
    apply (Hfile {| fi_Name := "x.json"; fi_IsRegular := true; fi_IsDir := false |}).
    + do 3 right. left.
    + reflexivity.
    + reflexivity.
    + discriminate.
    + reflexivity.
  - destruct (@enumeration_modes_agree Demo.listed "/cfg" "y" Demo.configured _ _ _
                (Demo.listing Demo.configured) Hcontract Hrun eq_refl) as [_ Hdir].
    apply (Hdir {| fi_Name := "y"; fi_IsRegular := false; fi_IsDir := true |}
             (ErrExternal "no such file")
             {| fi_Name := "y"; fi_IsRegular := false; fi_IsDir := true |}).
    + do 2 right. left.
    + reflexivity.
    + reflexivity.
    + reflexivity.
    + intros fi' Hfi' _.
      change (fi' ∈ Demo.listing Demo.configured) in Hfi'. unfold Demo.configured in Hfi'.
      simpl in Hfi'. rewrite !elem_of_cons, elem_of_nil in Hfi'.
      destruct Hfi' as [->|[->|[->|[->|[->|[]]]]]]; discriminate.
    + reflexivity.
    + vm_compute. reflexivity.
    + reflexivity.
Defined.

(** The two targets of the configured directory and where they come from. *)
Lemma enumerateAll_provenance_witness :
  Forall (λ e, ∃ fi, fi ∈ Demo.listing Demo.configured
            ∧ ((fi_IsRegular fi = true
                ∧ HasSuffix (fi_Name fi) ".json" = true
                ∧ fi_Name fi ≠ pinnedVersionsFileName
                ∧ Name e = TrimSuffix (fi_Name fi) ".json"
                ∧ @readSetFile Demo.platform Demo.configured
                    (@filepath_Join Demo.platform ["/cfg"; fi_Name fi]) = ReadOk (Set_ e))
               ∨ (fi_IsDir fi = true ∧ Name e = fi_Name fi ∧ Set_ e = zeroCommandSet)))
    [{| Name := "x"; Set_ := Demo.scripted ["x-version"] |};
     {| Name := "y"; Set_ := zeroCommandSet |}].
Proof.
  assert (Hcontract : @SortFunc_contract Demo.platform).
  { intros cmp [Hasym Hcotrans] l. split.
    - apply insertionSort_perm.
    - by apply insertionSort_sorted. }
  assert (Hrun : @enumerateAll Demo.platform "/cfg" Demo.configured
                 = (Ok [{| Name := "x"; Set_ := Demo.scripted ["x-version"] |};
                        {| Name := "y"; Set_ := zeroCommandSet |}], Demo.configured, []))
    by (vm_compute; reflexivity).
  assert (Hmode : ∀ fi, fi ∈ Demo.listing Demo.configured →
                        fi_IsRegular fi = true → fi_IsDir fi = false).
  { intros fi Hfi. unfold Demo.configured in Hfi. simpl in Hfi.
    rewrite !elem_of_cons, elem_of_nil in Hfi.
    destruct Hfi as [->|[->|[->|[->|[->|[]]]]]]; simpl; congruence. }
  destruct (@enumerateAll_provenance Demo.platform "/cfg" Demo.configured _ _ _
              (Demo.listing Demo.configured) Hcontract Hmode Hrun eq_refl) as (_ & _ & Hall).
  apply Forall_forall. exact Hall.
Defined.

(** [z.json] cannot be read: no target is enumerated, though [x.json] is
    good. *)
Lemma enumerateAll_broken_file_is_fatal_witness :
  ∃ err fi',
    @enumerateAll Demo.platform "/cfg" Demo.broken = (Panic err, Demo.broken, [])
    ∧ fi' ∈ Demo.listing Demo.broken
    ∧ (@readSetFile Demo.platform Demo.broken (@filepath_Join Demo.platform ["/cfg"; fi_Name fi'])
       = ReadNotExist err
       ∨ @readSetFile Demo.platform Demo.broken
           (@filepath_Join Demo.platform ["/cfg"; fi_Name fi']) = ReadOpenError err
       ∨ @readSetFile Demo.platform Demo.broken
           (@filepath_Join Demo.platform ["/cfg"; fi_Name fi']) = ReadDecodeError err).
Proof.
  apply (@enumerateAll_broken_file_is_fatal Demo.platform "/cfg" Demo.broken
           (Demo.listing Demo.broken)
           {| fi_Name := "z.json"; fi_IsRegular := true; fi_IsDir := false |}).
  - reflexivity.
  - right. left.
  - reflexivity.
  - reflexivity.
  - discriminate.
  - intros set. vm_compute. discriminate.
Defined.

(** The bad key is found whichever entry comes first. *)
Lemma pin_check_order_witness :
  (@checkPinnedEntries Demo.platform [("a", "1"); (" x", "1.0")] = None
   ↔ @checkPinnedEntries Demo.platform [(" x", "1.0"); ("a", "1")] = None)
  ∧ ∃ k v,
      (k, v) ∈ [(" x", "1.0"); ("a", "1")]
      ∧ @untrimmed Demo.platform (k, v)
      ∧ @checkPinnedEntries Demo.platform [("a", "1"); (" x", "1.0")]
        = Some (Errorf "pinned version %q has space prefix and/or suffix in name or version"
                  [k]).
Proof.
  destruct (@pin_check_order Demo.platform [("a", "1"); (" x", "1.0")]
              [(" x", "1.0"); ("a", "1")] (perm_swap _ _ _)) as [Hiff Herr].
  split; [exact Hiff|].
  eassert (Hbad : @checkPinnedEntries Demo.platform [("a", "1"); (" x", "1.0")] = Some _)
    by (vm_compute; reflexivity).
  destruct (Herr _ Hbad) as (k & v & Hin & Huntrimmed & Heq).
  exists k, v. split; [exact Hin|]. split; [exact Huntrimmed|].
  rewrite Hbad. f_equal. exact Heq.
Defined.

(** A run for [y] alone asks for the version of [y]. *)
Lemma main_single_target_witness :
  EvExec "y" commandVer "" false
  ∈ snd (@main Demo.listed "/cfg" "y" commandVer Demo.forced Demo.configured)
  ∧ "y" = "y" ∧ mayCall commandVer commandVer = true.
Proof.
  assert (Hin : EvExec "y" commandVer "" false
                ∈ snd (@main Demo.listed "/cfg" "y" commandVer Demo.forced Demo.configured)).
  { apply list_elem_of_In. vm_compute. repeat (first [left; reflexivity|right]). }
  split; [exact Hin|].
  exact (@main_single_target Demo.listed "/cfg" "y" commandVer Demo.forced Demo.configured
           _ _ _ _ ltac:(discriminate) Hin).
Defined.

(** The command set of a new target sends [Exec] to the scripts, as the
    zero set does. *)
Lemma Exec_reads_selected_template_witness :
  @Exec Demo.platform (newCommandExecutor "/cfg" {| Name := "x"; Set_ := emptyCommandSet |})
    commandVer "" false Demo.fresh
  = @Exec Demo.platform (Demo.bare "x") commandVer "" false Demo.fresh.
Proof.
  apply (@Exec_reads_selected_template Demo.platform
           (newCommandExecutor "/cfg" {| Name := "x"; Set_ := emptyCommandSet |})
           (Demo.bare "x") commandVer "" false Demo.fresh); reflexivity.
Defined.
